(** * The TryCua landing page ([src/Root.tsx]): a model of its state and handlers

    The page is one React component.  Its behaviour is a handful of
    independent pieces of state driven by event handlers:

    - [Format]: the star-count formatter [formatStarCount];
    - [Fetch]:  the one-shot GitHub request [fetchStars];
    - [Theme]:  the theme preference, [localStorage] and the [dark] class;
    - [Dom], [Menu]: ancestor lookup ([closest]) and the outside-click handler;
    - [Modal]:  click bubbling inside the video overlay;
    - [Timers], [Page]: [setTimeout]/[clearTimeout], [debounce], [checkScroll]
      and the page as a transition system over browser events.

    JavaScript numbers are modelled on the integers the page meets (counts,
    pixel metrics, milliseconds).  Where the formatter leaves the integers
    ([count / 100], [roundedCount / 1000]) the model keeps the exact value
    of each double as a rational and rounds every quotient and product to
    the nearest double, as the source's arithmetic does. *)

From Stdlib Require Import ZArith QArith Qround Lia Ascii String.
From stdpp Require Import base decidable numbers option list strings pretty gmap.

Set Warnings "-register-all".
Open Scope Z_scope.

(** ** Number formatting *)

Module Format.

(** *** Numbers

    A JavaScript Number is an IEEE 754 double.  The model keeps the exact
    value of each Number, an integer or a rational, and rounds the result
    of an arithmetic operation to the nearest double, as the operation
    does. *)

(** The integer nearest to [a / b] for [b > 0], the even one of two at
    the same distance. *)
Definition nearest_even (a b : Z) : Z :=
  let q := a / b in
  let r := a mod b in
  if 2 * r <? b then q
  else if b <? 2 * r then q + 1
  else if Z.even q then q else q + 1.

(** [2 ^ e] for an exponent of either sign. *)
Definition pow2 (e : Z) : Q :=
  if 0 <=? e then inject_Z (2 ^ e) else 1 # Z.to_pos (2 ^ (- e)).

(** The largest Number, [Number.MAX_VALUE]. *)
Definition MAX_VALUE : Z := 2 ^ 1024 - 2 ^ 971.

(** The Number for a real [x >= 1] that rounds to [MAX_VALUE] at most:
    [x] rounded to 53 significant bits, ties to even.  [e] is the exponent
    of the last of the 53 bits. *)
Definition to_Number (x : Q) : Q :=
  let e := Z.log2 (Qfloor x) - 52 in
  let m := if 0 <=? e
           then nearest_even (Qnum x) (Z.pos (Qden x) * 2 ^ e)
           else nearest_even (Qnum x * 2 ^ (- e)) (Z.pos (Qden x)) in
  (inject_Z m * pow2 e)%Q.

(** [a / b] and [a * b] on integer-valued Numbers.  A product of integers
    rounds to an integer; the quotients and products of [formatStarCount]
    are all at least 1, and at the largest count, [MAX_VALUE], they stay
    finite. *)
Definition divide (a b : Z) : Q := to_Number (inject_Z a / inject_Z b)%Q.

Definition multiply (a b : Z) : Z := Qfloor (to_Number (inject_Z (a * b))).

(** [Math.round]: the nearest integer, ties going towards [+∞]. *)
Definition Math_round (x : Q) : Z := Qfloor (x + (1 # 2))%Q.

(** *** Numbers as strings *)

(** The decimal digits of a natural number. *)
Definition digits (n : Z) : string := pretty n.

(** [r] rounds to the Number [x]. *)
Definition rounds_to (x r : Z) : bool :=
  Qeq_bool (to_Number (inject_Z r)) (inject_Z x).

(** The search of [Number::toString] (ECMA-262, 6.1.6.1.20, step 5) for an
    integer-valued Number [x] of [n] decimal digits: the least [k] and an
    [s] of [k] digits such that [s * 10^(n-k)] rounds to [x]; of two such
    [s] the one nearer to [x].  Seventeen digits always do. *)
Fixpoint shortest (fuel : nat) (k : Z) (x n : Z) : Z * Z :=
  match fuel with
  | O => (x, n)
  | S fuel' =>
      let p := 10 ^ (n - k) in
      let lo := x / p in
      let hi := lo + 1 in
      let lo_ok := rounds_to x (lo * p) in
      let hi_ok := (hi <? 10 ^ k) && rounds_to x (hi * p) in
      if lo_ok && hi_ok then
        (if x - lo * p <? hi * p - x then (lo, k)
         else if hi * p - x <? x - lo * p then (hi, k)
         else if Z.even lo then (lo, k) else (hi, k))
      else if lo_ok then (lo, k)
      else if hi_ok then (hi, k)
      else shortest fuel' (k + 1) x n
  end.

(** [Number::toString] for an integer-valued Number [x >= 10^21]:
    exponent notation, [d.ddd] then [e+] and the decimal exponent. *)
Definition exponent_notation (x : Z) : string :=
  let n := Z.of_nat (String.length (digits x)) in
  let '(s, n) := if rounds_to x (10 ^ n) then (1, n + 1)
                 else (fst (shortest 17 1 x n), n) in
  match digits s with
  | String d EmptyString => String d EmptyString +:+ "e+" +:+ digits (n - 1)
  | String d more => String d ("." +:+ more) +:+ "e+" +:+ digits (n - 1)
  | EmptyString => EmptyString
  end.

(** [Number.prototype.toString] on an integer-valued Number: its decimal
    digits below [10^21], exponent notation from there on, with a leading
    minus sign below zero. *)
Definition Number_toString (n : Z) : string :=
  let sign := if n <? 0 then "-"%string else EmptyString in
  let n := Z.abs n in
  sign +:+ (if n <? 10 ^ 21 then digits n else exponent_notation n).

(** The first [n] characters of [s] and the rest. *)
Fixpoint split_at (n : nat) (s : string) : string * string :=
  match n, s with
  | S n', String c s' => let (a, b) := split_at n' s' in (String c a, b)
  | _, _ => (EmptyString, s)
  end.

(** [k] copies of the digit zero. *)
Fixpoint zeros (k : nat) : string :=
  match k with
  | O => EmptyString
  | S k' => String "0"%char (zeros k')
  end.

(** Steps 10.b-d of [toFixed] for [f > 0]: left-pad the digit string [m]
    with zeros to [f + 1] digits and put the point before the last [f]. *)
Definition place_point (f : nat) (m : string) : string :=
  let k := String.length m in
  let m := if (k <=? f)%nat then zeros (f + 1 - k) +:+ m else m in
  let (a, b) := split_at (String.length m - f) m in
  a +:+ "." +:+ b.

(** [Number.prototype.toFixed(f)] (ECMA-262, 21.1.3.3) on a Number of
    exact value [x].  From [10^21] on the result is that of [toString].
    Below, take the integer [n] with [n / 10^f] closest to [x] (the larger
    one on a tie), write its digits and place the decimal point. *)
Definition toFixed (x : Q) (f : nat) : string :=
  let sign := if Qle_bool 0 x then EmptyString else "-"%string in
  let x := if Qle_bool 0 x then x else Qopp x in
  let m :=
    if Qle_bool (inject_Z (10 ^ 21)) x then Number_toString (Qfloor x)
    else
      let n := Qfloor (x * inject_Z (10 ^ Z.of_nat f) + (1 # 2))%Q in
      let m := digits n in
      match f with
      | O => m
      | S _ => place_point f m
      end in
  sign +:+ m.

(** [s.replace(/\.0$/, '')]: the pattern can only match where the rest of
    the input is exactly [".0"]; the scan goes left to right and deletes
    that match. *)
Fixpoint replace_dot0 (s : string) : string :=
  match s with
  | EmptyString => EmptyString
  | String c s' =>
      if String.eqb s ".0" then EmptyString else String c (replace_dot0 s')
  end.

(** The constant [roundedCount] (Root.tsx, line 8). *)
Definition roundedCount (count : Z) : Z :=
  multiply (Math_round (divide count 100)) 100.

(** [formatStarCount] (Root.tsx, lines 4-12); [count] is an
    integer-valued Number. *)
Definition formatStarCount (count : option Z) : string :=
  match count with
  | None => "0"
  | Some count =>
      if 1000 <=? count then
        replace_dot0 (toFixed (divide (roundedCount count) 1000) 1) +:+ "k"
      else Number_toString count
  end.

(** The formatting rule in the specification's words, in exact integer
    arithmetic: round to the nearest hundred, scale to thousands, keep one
    decimal unless it is zero, append ["k"]. *)
Definition round_to_hundreds (c : Z) : Z := (c + 50) / 100.

Definition spec_thousands (c : Z) : string :=
  let h := round_to_hundreds c in
  if h mod 10 =? 0
  then digits (h / 10) +:+ "k"
  else digits (h / 10) +:+ "." +:+ digits (h mod 10) +:+ "k".

End Format.


(** ** The star-count request *)

Module Fetch.

(** What [response.json()] can resolve to.  Numbers are the integer-valued
    ones; objects map property names to values. *)
Inductive json : Type :=
| JNull
| JBool (b : bool)
| JNumber (n : Z)
| JString (s : string)
| JArray (items : list json)
| JObject (fields : gmap string json).

(** A thrown value, as the [catch] block reads it. *)
Record js_error := JsError { name : string; message : string; stack : string }.

(** How a promise settles. *)
Inductive settled (A : Type) : Type :=
| Fulfilled (a : A)
| Rejected (e : js_error).
Arguments Fulfilled {A} a.
Arguments Rejected {A} e.

(** The parts of a [Response] that [fetchStars] reads; [body] is what
    [response.json()] settles to. *)
Record response := Response {
  ok : bool;
  status : Z;
  statusText : string;
  rateLimitRemaining : option string;
  rateLimitReset : option string;
  body : settled json
}.

(** [!!data]: JavaScript truthiness. *)
Definition truthy (v : json) : bool :=
  match v with
  | JNull => false
  | JBool b => b
  | JNumber n => negb (n =? 0)
  | JString s => negb (String.eqb s "")
  | JArray _ | JObject _ => true
  end.

(** [data.key] for a key that is no built-in property of arrays, strings,
    numbers or booleans; [None] is [undefined]. *)
Definition get_property (data : json) (key : string) : option json :=
  match data with
  | JObject fields => fields !! key
  | _ => None
  end.

(** The [typeof] operator. *)
Definition typeof (v : option json) : string :=
  match v with
  | None => "undefined"
  | Some JNull => "object"
  | Some (JBool _) => "boolean"
  | Some (JNumber _) => "number"
  | Some (JString _) => "string"
  | Some (JArray _) | Some (JObject _) => "object"
  end.

Inductive level := Log | Error.

(** The star count held by the component and the console it logs to. *)
Record state := State {
  lumeStars : option Z;
  console : list (level * string)
}.

(** Computations of the handler: they read and write [state] and either
    complete with a value or throw. *)
Inductive completion (A : Type) : Type :=
| Normal (a : A)
| Throw (e : js_error).
Arguments Normal {A} a.
Arguments Throw {A} e.

Definition M (A : Type) : Type := state -> completion A * state.

#[export] Instance M_ret : MRet M := fun A a st => (Normal a, st).

#[export] Instance M_bind : MBind M := fun A B k m st =>
  match m st with
  | (Normal a, st') => k a st'
  | (Throw e, st') => (Throw e, st')
  end.

Definition try_catch {A} (m : M A) (handler : js_error -> M A) : M A :=
  fun st =>
    match m st with
    | (Normal a, st') => (Normal a, st')
    | (Throw e, st') => handler e st'
    end.

(** [await p]: the value of a fulfilled promise; a rejection reason is
    thrown. *)
Definition await {A} (p : settled A) : M A :=
  fun st =>
    match p with
    | Fulfilled a => (Normal a, st)
    | Rejected e => (Throw e, st)
    end.

Definition console_log (msg : string) : M unit :=
  fun st => (Normal tt, State (lumeStars st) (console st ++ [(Log, msg)])).

Definition console_error (msg : string) : M unit :=
  fun st => (Normal tt, State (lumeStars st) (console st ++ [(Error, msg)])).

Definition setLumeStars (n : Z) : M unit :=
  fun st => (Normal tt, State (Some n) (console st)).

(** [fetchStars] (Root.tsx, lines 62-97), run against the way the request
    settles.  The early [return]s are the branches that end without
    [setLumeStars]. *)
Definition fetchStars (request : settled response) : M unit :=
  try_catch
    (console_log "Fetching GitHub stars...";;
     response ← await request;
     if negb (ok response) then
       console_error "GitHub API error:"
     else
       data ← await (body response);
       console_log "GitHub API response:";;
       if negb (truthy data)
          || negb (String.eqb (typeof (get_property data "stargazers_count")) "number")
       then console_error "Invalid GitHub API response:"
       else
         match get_property data "stargazers_count" with
         | Some (JNumber n) => setLumeStars n
         | _ => mret tt
         end)
    (fun error => console_error "Error fetching GitHub stars:").

(** [fetchStars] up to its first [await]: what has run when the effect that
    calls it at mount returns. *)
Definition fetchStars_start : M unit :=
  console_log "Fetching GitHub stars...".

(** [fetchStars] from its first [await] on: what runs once the request has
    settled. *)
Definition fetchStars_resume (request : settled response) : M unit :=
  try_catch
    (response ← await request;
     if negb (ok response) then
       console_error "GitHub API error:"
     else
       data ← await (body response);
       console_log "GitHub API response:";;
       if negb (truthy data)
          || negb (String.eqb (typeof (get_property data "stargazers_count")) "number")
       then console_error "Invalid GitHub API response:"
       else
         match get_property data "stargazers_count" with
         | Some (JNumber n) => setLumeStars n
         | _ => mret tt
         end)
    (fun error => console_error "Error fetching GitHub stars:").

(** The three failures of the specification, read off the request alone. *)
Definition network_failure (request : settled response) : bool :=
  match request with
  | Rejected _ => true
  | Fulfilled _ => false
  end.

Definition non_success_status (request : settled response) : bool :=
  match request with
  | Fulfilled r => negb (ok r)
  | Rejected _ => false
  end.

Definition has_star_count (data : json) : bool :=
  match data with
  | JObject fields =>
      match fields !! "stargazers_count" with
      | Some (JNumber _) => true
      | _ => false
      end
  | _ => false
  end.

Definition malformed_payload (request : settled response) : bool :=
  match request with
  | Fulfilled r =>
      match body r with
      | Fulfilled data => negb (has_star_count data)
      | Rejected _ => true
      end
  | Rejected _ => false
  end.

Definition failing (request : settled response) : bool :=
  network_failure request || non_success_status request || malformed_payload request.


#[export] Instance level_eq_dec : EqDecision level.
Proof. solve_decision. Defined.

(** The [console.error] entries among console entries. *)
Definition errors (entries : list (level * string)) : list (level * string) :=
  filter (fun entry => entry.1 = Error) entries.

End Fetch.

(** ** Theme preference *)

Module Theme.

(** The preference held by the component, [localStorage], and what the
    handlers touch of [document.documentElement] and [document.body]. *)
Record state := State {
  isDarkMode : bool;
  localStorage : gmap string string;
  classList : gset string;
  htmlBackground : option string;
  bodyBackground : option string
}.

(** The initialiser of [isDarkMode] (Root.tsx, lines 29-33). *)
Definition initial_isDarkMode (storage : gmap string string) : bool :=
  bool_decide (storage !! "theme" = Some "dark").

(** [classList.toggle(token)]. *)
Definition classList_toggle (token : string) (cl : gset string) : gset string :=
  if decide (token ∈ cl) then cl ∖ {[token]} else cl ∪ {[token]}.

(** [toggleTheme] (Root.tsx, lines 36-45): the updater passed to
    [setIsDarkMode], with its two side effects. *)
Definition toggleTheme (st : state) : state :=
  let newTheme := negb (isDarkMode st) in
  State newTheme
        (<["theme" := if newTheme then "dark" else "light"]> (localStorage st))
        (classList_toggle "dark" (classList st))
        (htmlBackground st) (bodyBackground st).

(** The effect on [isDarkMode] (Root.tsx, lines 48-58). *)
Definition applyTheme (st : state) : state :=
  if isDarkMode st then
    State (isDarkMode st) (localStorage st) (classList st ∪ {["dark"]})
          (Some "#171717") (Some "#171717")
  else
    State (isDarkMode st) (localStorage st) (classList st ∖ {["dark"]})
          (Some "white") (Some "white").

(** Mounting the component on a browser with the given storage and root
    classes: the initialiser, then the effect. *)
Definition mount (storage : gmap string string) (classes : gset string) : state :=
  applyTheme (State (initial_isDarkMode storage) storage classes None None).

(** The string that names a preference in storage. *)
Definition theme_name (dark : bool) : string := if dark then "dark" else "light".


(** What holds of the theme once the effect has run, on a document whose
    root carried [classes] before the page touched it: the stored value
    reads back as the preference, the [dark] class and the two backgrounds
    show it, and the other classes are as they were. *)
Definition settled (classes : gset string) (st : state) : Prop :=
  initial_isDarkMode (localStorage st) = isDarkMode st
  /\ ("dark" ∈ classList st <-> isDarkMode st = true)
  /\ htmlBackground st = Some (if isDarkMode st then "#171717" else "white")
  /\ bodyBackground st = Some (if isDarkMode st then "#171717" else "white")
  /\ classList st ∖ {["dark"]} = classes ∖ {["dark"]}.

End Theme.

(** ** Elements and the outside-click handler *)

Module Dom.

(** An element as a click handler sees it: its attributes and the chain of
    [parentElement]s above it. *)
Inductive element : Type :=
| Element (attributes : gmap string string) (parentElement : option element).

Definition attributes (e : element) : gmap string string :=
  match e with Element a _ => a end.

Definition parentElement (e : element) : option element :=
  match e with Element _ p => p end.

(** The selector [[name]]: the attribute is present, whatever its value. *)
Definition has_attribute (name : string) (e : element) : bool :=
  bool_decide (is_Some (attributes e !! name)).

(** [e.closest('[name]')]: [e] itself or its nearest ancestor carrying the
    attribute; [None] is [null]. *)
Fixpoint closest (name : string) (e : element) : option element :=
  match e with
  | Element attrs parent =>
      if bool_decide (is_Some (attrs !! name)) then Some e
      else match parent with
           | Some p => closest name p
           | None => None
           end
  end.

(** Ancestor containment: [e] is, or lies below, an element carrying the
    attribute. *)
Inductive inside (name : string) : element -> Prop :=
| inside_self e : has_attribute name e = true -> inside name e
| inside_parent attrs p : inside name p -> inside name (Element attrs (Some p)).

End Dom.

Module Menu.

(** [handleClick] (Root.tsx, lines 103-108), as registered while
    [isMenuOpen] has the given value; the result is the new value. *)
Definition handleClick (isMenuOpen : bool) (target : Dom.element) : bool :=
  if isMenuOpen && negb (bool_decide (is_Some (Dom.closest "data-menu-container" target)))
  then false
  else isMenuOpen.

(** The mobile menu button (Root.tsx, lines 166-169). *)
Definition menuButton (isMenuOpen : bool) : bool := negb isMenuOpen.

End Menu.

(** ** The video modal *)

Module Modal.

(** The elements of the modal that carry an [onClick] (Root.tsx, lines
    381-407): the backdrop, the content box inside it and the close button
    inside the box. *)
Inductive node := Overlay | Content | CloseButton.

Definition parent (n : node) : option node :=
  match n with
  | CloseButton => Some Content
  | Content => Some Overlay
  | Overlay => None
  end.

(** The target of a click followed by its ancestors, innermost first: the
    order in which a bubbling click visits them. *)
Definition path (target : node) : list node :=
  match target with
  | Overlay => [Overlay]
  | Content => [Content; Overlay]
  | CloseButton => [CloseButton; Content; Overlay]
  end.

(** A node's [onClick]: the new [showVideo] and whether the handler
    called [stopPropagation]. *)
Definition onClick (n : node) (showVideo : bool) : bool * bool :=
  match n with
  | Overlay => (false, false)
  | Content => (showVideo, true)
  | CloseButton => (false, false)
  end.

(** Bubbling: run the handlers along the path until one stops it. *)
Fixpoint propagate (nodes : list node) (showVideo : bool) : bool :=
  match nodes with
  | [] => showVideo
  | n :: rest =>
      let (showVideo', stopped) := onClick n showVideo in
      if stopped then showVideo' else propagate rest showVideo'
  end.

Definition click (target : node) (showVideo : bool) : bool :=
  propagate (path target) showVideo.

(** The "Watch Demo" button (Root.tsx, line 359). *)
Definition watchDemo (showVideo : bool) : bool := true.

End Modal.

(** ** Timers and [debounce] *)

Module Timers.

Section Loop.

(** What a timer runs when it fires. *)
Context {C : Type}.

Record timer := Timer { timer_id : nat; due : nat; callback : C }.

(** The clock in milliseconds, the next timer id and the timers that are
    set and have neither fired nor been cleared, oldest first. *)
Record loop := Loop { now : nat; next_id : nat; pending : list timer }.

Definition start : loop := Loop 0 1 [].

(** [setTimeout(cb, ms)]: returns the id of the new timer. *)
Definition setTimeout (cb : C) (ms : nat) (l : loop) : nat * loop :=
  (next_id l,
   Loop (now l) (S (next_id l)) (pending l ++ [Timer (next_id l) (now l + ms) cb])).

(** [clearTimeout(id)]; [None] is [undefined], and an id that is not
    pending clears nothing. *)
Definition clearTimeout (id : option nat) (l : loop) : loop :=
  match id with
  | None => l
  | Some i => Loop (now l) (next_id l) (filter (fun t => timer_id t ≠ i) (pending l))
  end.

(** One millisecond passes: the timers that are due leave the queue, and
    their callbacks are handed back in the order they were set.  Time is
    counted in whole milliseconds and a timer runs in the millisecond it
    falls due; a browser may run it later, never earlier. *)
Definition tick (l : loop) : list C * loop :=
  let t := S (now l) in
  (callback <$> filter (fun x => (due x <= t)%nat) (pending l),
   Loop t (next_id l) (filter (fun x => ¬ (due x <= t)%nat) (pending l))).

(** [debounce(fn, ms)] (Root.tsx, lines 15-21).  The returned function
    owns the variable [timeoutId]; calling it is a step on that variable
    and the timer queue.  [fn] stands for the arrow function handed to
    [setTimeout], which applies the wrapped function. *)
Definition debounce (fn : C) (ms : nat) (timeoutId : option nat) (l : loop)
  : option nat * loop :=
  let l := clearTimeout timeoutId l in
  let (id, l) := setTimeout fn ms l in
  (Some id, l).

End Loop.

Arguments timer : clear implicits.
Arguments loop : clear implicits.

End Timers.

(** ** Scroll tracking *)

Module Scroll.

(** The three properties [checkScroll] reads from
    [document.documentElement], in pixels. *)
Record metrics := Metrics { scrollTop : Z; scrollHeight : Z; clientHeight : Z }.

(** The two window events that are tracked. *)
Inductive source := OnScroll | OnResize.

(** The functions handed to [setTimeout]: the initialisation timeout and
    the trailing call of either debounced wrapper. *)
Inductive callback := InitTimeout | Debounced (src : source).

#[export] Instance source_eq_dec : EqDecision source.
Proof. solve_decision. Defined.

#[export] Instance callback_eq_dec : EqDecision callback.
Proof. solve_decision. Defined.

(** A run of [checkScroll]: when, on whose behalf, and what it read. *)
Record call := Call { at_time : nat; via : callback; measured : metrics }.

Record state := State {
  isScrolled : bool;
  isInitialized : bool;
  document : metrics;
  loop : Timers.loop callback;
  scrollTimeoutId : option nat;  (* [timeoutId] of [debouncedScroll] *)
  resizeTimeoutId : option nat;  (* [timeoutId] of [debouncedResize] *)
  calls : list call              (* every run of [checkScroll], newest first *)
}.

(** The thresholds of [checkScroll] (Root.tsx, lines 118-119). *)
Definition hasScrollableContent (m : metrics) : bool :=
  clientHeight m + 10 <? scrollHeight m.

Definition hasScrolled (m : metrics) : bool := 5 <? scrollTop m.

(** [checkScroll] (Root.tsx, lines 116-122), run by callback [cb]. *)
Definition checkScroll (cb : callback) (st : state) : state :=
  let m := document st in
  State (hasScrollableContent m && hasScrolled m) (isInitialized st) m (loop st)
        (scrollTimeoutId st) (resizeTimeoutId st)
        (Call (Timers.now (loop st)) cb m :: calls st).

Definition setIsInitialized (b : bool) (st : state) : state :=
  State (isScrolled st) b (document st) (loop st)
        (scrollTimeoutId st) (resizeTimeoutId st) (calls st).

(** The quiet period of each wrapper (Root.tsx, lines 130-131). *)
Definition delay (src : source) : nat :=
  match src with
  | OnScroll => 50
  | OnResize => 100
  end.

Definition init_delay : nat := 100.

(** What a timer's function does when it fires. *)
Definition run_callback (st : state) (cb : callback) : state :=
  match cb with
  | InitTimeout => checkScroll InitTimeout (setIsInitialized true st)
  | Debounced src => checkScroll (Debounced src) st
  end.

(** The window fires [src] with the document now measuring [m]: the
    listener is the debounced wrapper of that source. *)
Definition window_event (src : source) (m : metrics) (st : state) : state :=
  match src with
  | OnScroll =>
      let (id, l) := Timers.debounce (Debounced OnScroll) (delay OnScroll)
                                     (scrollTimeoutId st) (loop st) in
      State (isScrolled st) (isInitialized st) m l id (resizeTimeoutId st) (calls st)
  | OnResize =>
      let (id, l) := Timers.debounce (Debounced OnResize) (delay OnResize)
                                     (resizeTimeoutId st) (loop st) in
      State (isScrolled st) (isInitialized st) m l (scrollTimeoutId st) id (calls st)
  end.

(** One millisecond passes and the due timers run. *)
Definition tick (st : state) : state :=
  let (cbs, l) := Timers.tick (loop st) in
  foldl run_callback
        (State (isScrolled st) (isInitialized st) (document st) l
               (scrollTimeoutId st) (resizeTimeoutId st) (calls st))
        cbs.

(** The effect of Root.tsx, lines 115-141, at mount: the initialisation
    timeout is set and the two wrappers are created. *)
Definition mount (m : metrics) : state :=
  let (_, l) := Timers.setTimeout InitTimeout init_delay Timers.start in
  State false false m l None None [].

Inductive event :=
| Tick
| Window (src : source) (m : metrics).

Definition step (st : state) (e : event) : state :=
  match e with
  | Tick => tick st
  | Window src m => window_event src m st
  end.

Definition run (st : state) (es : list event) : state := foldl step st es.

(** [d] milliseconds pass. *)
Definition wait (d : nat) : list event := replicate d Tick.

(** A burst of events of one source: the first event, then for each gap
    that many milliseconds and another event.  Each event carries the
    document's measures at that moment. *)
Fixpoint burst (src : source) (m : metrics) (rest : list (nat * metrics)) : list event :=
  match rest with
  | [] => [Window src m]
  | (gap, m') :: rest' => Window src m :: wait gap ++ burst src m' rest'
  end.

(** The measures carried by the last event of a burst. *)
Fixpoint last_measures (m : metrics) (rest : list (nat * metrics)) : metrics :=
  match rest with
  | [] => m
  | (_, m') :: rest' => last_measures m' rest'
  end.

Definition clock (st : state) : nat := Timers.now (loop st).

(** The variable [timeoutId] of the wrapper of a source. *)
Definition timeoutId (src : source) (st : state) : option nat :=
  match src with
  | OnScroll => scrollTimeoutId st
  | OnResize => resizeTimeoutId st
  end.

(** The pending timers that will run [cb], and the runs of [checkScroll]
    made by [cb]. *)
Definition timers_of (cb : callback) (st : state) : list (Timers.timer callback) :=
  filter (fun t => Timers.callback t = cb) (Timers.pending (loop st)).

Definition calls_via (cb : callback) (st : state) : list call :=
  filter (fun c => via c = cb) (calls st).

(** The runs of [checkScroll] made through the wrapper of [src], and the
    timers of that wrapper that are waiting to fire. *)
Definition debounced_calls (src : source) (st : state) : list call :=
  calls_via (Debounced src) st.

Definition in_flight (src : source) (st : state) : list (Timers.timer callback) :=
  timers_of (Debounced src) st.

Definition is_init (cb : callback) : bool :=
  match cb with
  | InitTimeout => true
  | Debounced _ => false
  end.

(** Whether the newest measurement passed both thresholds. *)
Definition over_last (cs : list call) : bool :=
  match cs with
  | c :: _ => hasScrollableContent (measured c) && hasScrolled (measured c)
  | [] => false
  end.

(** Invariants of the tracker. *)

(** At most one timer of a wrapper is pending, and it is the one the
    wrapper remembers. *)
Definition one_in_flight (src : source) (st : state) : Prop :=
  timers_of (Debounced src) st = []
  \/ exists t, timers_of (Debounced src) st = [t]
               /\ timeoutId src st = Some (Timers.timer_id t).

(** The initialisation timeout is pending until it fires at [init_delay];
    the wrappers' timers have later ids and never clear it. *)
Definition init_pending (st : state) : Prop :=
  timers_of InitTimeout st
    = (if decide (clock st < init_delay)%nat
       then [Timers.Timer 1 init_delay InitTimeout] else [])
  /\ isInitialized st = bool_decide (init_delay <= clock st)%nat
  /\ (2 <= Timers.next_id (loop st))%nat
  /\ (forall src i, timeoutId src st = Some i -> 2 <= i)%nat.

Definition wf (st : state) : Prop :=
  (forall src, one_in_flight src st)
  /\ init_pending st
  /\ isScrolled st = over_last (calls st).

(** The class expression of the floating call-to-action (Root.tsx, line
    339): shown when both flags are set.  This is the fixed-position
    presentation of small viewports; from the [md] breakpoint up the
    stylesheet shows the block in the page flow whatever the flags. *)
Definition ctaVisible (st : state) : bool := isScrolled st && isInitialized st.


(** How many events of [src] a history holds. *)
Fixpoint events_of (src : source) (es : list event) : nat :=
  match es with
  | [] => 0
  | Tick :: es' => events_of src es'
  | Window src' _ :: es' =>
      ((if decide (src' = src) then 1 else 0) + events_of src es')%nat
  end.

(** The constant [initTimeout] (Root.tsx, line 125): the id that
    [setTimeout] returned at mount. *)
Definition initTimeout : nat :=
  fst (Timers.setTimeout InitTimeout init_delay Timers.start).

(** The cleanup of the effect (Root.tsx, lines 136-140): the
    initialisation timeout is cleared.  The two listeners are removed, so
    from then on the tracker sees no window event, only time passing; the
    wrappers' own timers are not touched. *)
Definition cleanup (st : state) : state :=
  State (isScrolled st) (isInitialized st) (document st)
        (Timers.clearTimeout (Some initTimeout) (loop st))
        (scrollTimeoutId st) (resizeTimeoutId st) (calls st).

(** Further invariants of the tracker. *)

(** The ids the wrappers remember were handed out by [setTimeout], and
    the two wrappers never remember the same one. *)
Definition fresh_ids (st : state) : Prop :=
  (forall src i, timeoutId src st = Some i -> (i < Timers.next_id (loop st))%nat)
  /\ (forall i, scrollTimeoutId st = Some i -> resizeTimeoutId st <> Some i).

(** A pending timer of a wrapper is due in the future, at most the
    wrapper's delay from now. *)
Definition due_bounded (st : state) : Prop :=
  forall src t, t ∈ timers_of (Debounced src) st ->
    (clock st < Timers.due t <= clock st + delay src)%nat.

(** The initialisation callback has run exactly once, at [init_delay],
    once that time has come, and not before. *)
Definition init_ran (st : state) : Prop :=
  at_time <$> calls_via InitTimeout st
  = if decide (clock st < init_delay)%nat then [] else [init_delay].

End Scroll.

(** ** The page *)

Module Page.

Record state := State {
  theme : Theme.state;
  stars : Fetch.state;
  fetchPending : bool;
  isMenuOpen : bool;
  showVideo : bool;
  tracker : Scroll.state
}.

(** The browser the component is mounted in. *)
Record browser := Browser {
  storage : gmap string string;
  rootClasses : gset string;
  layout : Scroll.metrics
}.

(** Mounting runs the effects: the theme is applied, [fetchStars] runs up
    to its first [await], the timers of the scroll tracker are set. *)
Definition mount (b : browser) : state :=
  State (Theme.mount (storage b) (rootClasses b))
        (snd (Fetch.fetchStars_start (Fetch.State None [])))
        true false false
        (Scroll.mount (layout b)).

Inductive event :=
| Tick
| Window (src : Scroll.source) (m : Scroll.metrics)
| ThemeSwitchClick
| MenuButtonClick
| DocumentClick (target : Dom.element)
| WatchDemoClick
| ModalClick (target : Modal.node)
| RequestSettles (request : Fetch.settled Fetch.response).

Definition step (st : state) (e : event) : state :=
  match e with
  | Tick =>
      State (theme st) (stars st) (fetchPending st) (isMenuOpen st) (showVideo st)
            (Scroll.tick (tracker st))
  | Window src m =>
      State (theme st) (stars st) (fetchPending st) (isMenuOpen st) (showVideo st)
            (Scroll.window_event src m (tracker st))
  | ThemeSwitchClick =>
      State (Theme.applyTheme (Theme.toggleTheme (theme st)))
            (stars st) (fetchPending st) (isMenuOpen st) (showVideo st) (tracker st)
  | MenuButtonClick =>
      State (theme st) (stars st) (fetchPending st)
            (Menu.menuButton (isMenuOpen st)) (showVideo st) (tracker st)
  | DocumentClick target =>
      State (theme st) (stars st) (fetchPending st)
            (Menu.handleClick (isMenuOpen st) target) (showVideo st) (tracker st)
  | WatchDemoClick =>
      State (theme st) (stars st) (fetchPending st) (isMenuOpen st)
            (Modal.watchDemo (showVideo st)) (tracker st)
  | ModalClick target =>
      (* the modal is in the tree only while [showVideo] holds *)
      if showVideo st then
        State (theme st) (stars st) (fetchPending st) (isMenuOpen st)
              (Modal.click target (showVideo st)) (tracker st)
      else st
  | RequestSettles request =>
      (* the request is made once and settles once; [fetchStars] goes on
         from its first [await] *)
      if fetchPending st then
        State (theme st) (snd (Fetch.fetchStars_resume request (stars st))) false
              (isMenuOpen st) (showVideo st) (tracker st)
      else st
  end.

Definition run (st : state) (es : list event) : state := foldl step st es.

Definition reachable (st : state) : Prop :=
  exists b es, st = run (mount b) es.

(** The part of a page event that concerns the scroll tracker. *)
Definition tracker_event (e : event) : option Scroll.event :=
  match e with
  | Tick => Some Scroll.Tick
  | Window src m => Some (Scroll.Window src m)
  | _ => None
  end.

(** A tracker event as an event of the page. *)
Definition of_tracker (e : Scroll.event) : event :=
  match e with
  | Scroll.Tick => Tick
  | Scroll.Window src m => Window src m
  end.

Definition ctaVisible (st : state) : bool := Scroll.ctaVisible (tracker st).


(** How often the theme switch is pressed in a history. *)
Fixpoint theme_presses (es : list event) : nat :=
  match es with
  | [] => 0
  | ThemeSwitchClick :: es' => S (theme_presses es')
  | _ :: es' => theme_presses es'
  end.

End Page.

(** * Theorems *)

(** ** Strings and decimal digits *)

Section StringFacts.

Lemma append_cons (x : ascii) (a b : string) :
  String x a +:+ b = String x (a +:+ b).
Proof. reflexivity. Qed.

Lemma append_nil_l (b : string) : "" +:+ b = b.
Proof. reflexivity. Qed.

Lemma append_length (a b : string) :
  String.length (a +:+ b) = (String.length a + String.length b)%nat.
Proof.
  induction a as [|x a IH]; [reflexivity|].
  rewrite append_cons. simpl. now rewrite IH.
Qed.

Lemma append_assoc (a b c : string) : (a +:+ b) +:+ c = a +:+ (b +:+ c).
Proof.
  induction a as [|x a IH]; [reflexivity|].
  rewrite !append_cons. now rewrite IH.
Qed.

Lemma split_at_append (a b : string) :
  Format.split_at (String.length a) (a +:+ b) = (a, b).
Proof.
  induction a as [|x a IH].
  - rewrite append_nil_l. destruct b; reflexivity.
  - rewrite append_cons. simpl. now rewrite IH.
Qed.

(** The digits of [x] are written in front of the accumulator. *)
Lemma pretty_N_go_append (x : N) (s : string) :
  pretty_N_go x s = pretty_N_go x "" +:+ s.
Proof.
  revert s. induction (N.lt_wf_0 x) as [x _ IH]. intros s.
  destruct (decide (x = 0%N)) as [->|Hx].
  - now rewrite !pretty_N_go_0.
  - rewrite !(pretty_N_go_step x) by lia.
    assert (Hlt : (x `div` 10 < x)%N) by (apply N.div_lt; lia).
    rewrite (IH _ Hlt (String _ s)), (IH _ Hlt (String _ "")).
    now rewrite append_assoc.
Qed.

Lemma pretty_N_digit (n : N) :
  (n < 10)%N -> pretty n = String (pretty_N_char n) "".
Proof.
  intros Hn. unfold pretty, pretty_N.
  destruct (decide (n = 0%N)) as [->|Hz]; [reflexivity|].
  rewrite pretty_N_go_step by lia.
  rewrite N.div_small, N.mod_small by lia. now rewrite pretty_N_go_0.
Qed.

Lemma pretty_N_snoc (n : N) :
  (10 <= n)%N ->
  pretty n = pretty (n `div` 10)%N +:+ String (pretty_N_char (n `mod` 10)) "".
Proof.
  intros Hn. unfold pretty, pretty_N.
  assert (0 < n `div` 10)%N by (apply N.div_str_pos; lia).
  rewrite !decide_False by lia.
  rewrite pretty_N_go_step by lia. apply pretty_N_go_append.
Qed.

Lemma pretty_N_nonempty (n : N) : String.length (pretty n) <> 0%nat.
Proof.
  destruct (decide (n < 10)%N).
  - now rewrite pretty_N_digit.
  - rewrite pretty_N_snoc, append_length by lia. simpl. lia.
Qed.

Lemma pretty_Z_nonneg (z : Z) : 0 <= z -> pretty z = pretty (Z.to_N z).
Proof. destruct z; [reflexivity | reflexivity | lia]. Qed.

(** Placing the point before the last digit of [n]: the digits of
    [n / 10], the point, the digit [n mod 10]. *)
Lemma place_point_tenths (n : Z) :
  0 <= n ->
  Format.place_point 1 (Format.digits n)
  = Format.digits (n / 10) +:+ "." +:+ Format.digits (n mod 10).
Proof.
  intros Hn. unfold Format.digits.
  rewrite !pretty_Z_nonneg by (try apply Z.div_pos; try apply Z.mod_pos_bound; lia).
  rewrite Z2N.inj_div, Z2N.inj_mod by lia.
  change (Z.to_N 10) with 10%N. generalize (Z.to_N n) as m. clear n Hn. intros m.
  rewrite (pretty_N_digit (m `mod` 10)) by (apply N.mod_lt; lia).
  unfold Format.place_point.
  destruct (decide (m < 10)%N) as [Hm|Hm].
  - rewrite N.div_small, N.mod_small by lia.
    rewrite pretty_N_digit by lia. reflexivity.
  - rewrite pretty_N_snoc by lia.
    pose proof (pretty_N_nonempty (m `div` 10)%N) as Hne.
    set (a := pretty (m `div` 10)%N) in *.
    rewrite !append_length. simpl String.length.
    destruct (Nat.leb_spec (String.length a + 1) 1); [lia|].
    rewrite append_length. simpl String.length.
    replace (String.length a + 1 - 1)%nat with (String.length a) by lia.
    now rewrite split_at_append.
Qed.

Lemma replace_dot0_cons (x : ascii) (s : string) :
  Format.replace_dot0 (String x s)
  = if String.eqb (String x s) ".0" then ""%string
    else String x (Format.replace_dot0 s).
Proof. reflexivity. Qed.

(** A string that ends in a point and one more character loses both
    exactly when that character is the digit zero. *)
Lemma replace_dot0_point (a : string) (d : ascii) :
  Format.replace_dot0 (a +:+ "." +:+ String d "")
  = if Ascii.eqb d "0" then a else a +:+ "." +:+ String d "".
Proof.
  induction a as [|x a IH].
  - rewrite !append_nil_l. change ("." +:+ String d "") with (String "." (String d "")).
    simpl. destruct (Ascii.eqb_spec d "0") as [->|Hd]; [reflexivity|].
    simpl. destruct (Ascii.eqb d "0") eqn:E; [apply Ascii.eqb_eq in E; contradiction|].
    destruct d as [[] [] [] [] [] [] [] []]; reflexivity.
  - rewrite (append_cons x a), replace_dot0_cons.
    replace (String.eqb (String x (a +:+ "." +:+ String d "")) ".0") with false.
    + rewrite IH. destruct (Ascii.eqb d "0"); reflexivity.
    + symmetry. apply String.eqb_neq. intros E.
      apply (f_equal String.length) in E. simpl in E.
      rewrite append_length in E. simpl in E. lia.
Qed.

End StringFacts.

(** ** The star-count formatter *)

Section FormatFacts.
Import Format.

Lemma nearest_even_bounds (a b : Z) :
  0 < b ->
  a / b <= nearest_even a b <= a / b + 1
  /\ 2 * a - b <= 2 * b * nearest_even a b <= 2 * a + b.
Proof.
  intros Hb. unfold nearest_even.
  pose proof (Z.div_mod a b ltac:(lia)) as Hdm.
  pose proof (Z.mod_pos_bound a b Hb) as Hr.
  set (q := a / b) in *. set (r := a mod b) in *.
  destruct (Z.ltb_spec (2 * r) b); [nia|].
  destruct (Z.ltb_spec b (2 * r)); [nia|].
  destruct (Z.even q); nia.
Qed.

Lemma nearest_even_exact (a b : Z) :
  0 < b -> a mod b = 0 -> nearest_even a b = a / b.
Proof.
  intros Hb Hr. unfold nearest_even. rewrite Hr.
  now rewrite (proj2 (Z.ltb_lt (2 * 0) b)) by lia.
Qed.

(** Below [2^52] the last of the 53 bits has a negative exponent. *)
Lemma to_Number_fraction (x : Q) :
  let k := 52 - Z.log2 (Qfloor x) in
  0 < k ->
  to_Number x
  = (inject_Z (nearest_even (Qnum x * 2 ^ k) (Z.pos (Qden x)))
     * (1 # Z.to_pos (2 ^ k)))%Q.
Proof.
  intros k Hk. unfold to_Number, pow2.
  rewrite (proj2 (Z.leb_gt 0 (Z.log2 (Qfloor x) - 52))) by (unfold k in Hk; lia).
  replace (- (Z.log2 (Qfloor x) - 52)) with k by (unfold k; lia).
  reflexivity.
Qed.

Lemma Qfloor_round (m P : Z) :
  0 < P ->
  Qfloor (inject_Z m * (1 # Z.to_pos P) + (1 # 2))%Q = (2 * m + P) / (2 * P).
Proof.
  intros HP. unfold Qfloor, Qplus, Qmult, inject_Z. cbn [Qnum Qden].
  rewrite !Pos2Z.inj_mul, Z2Pos.id by exact HP.
  f_equal; lia.
Qed.

Lemma Qfloor_round_tenths (m P : Z) :
  0 < P ->
  Qfloor (inject_Z m * (1 # Z.to_pos P) * inject_Z (10 ^ Z.of_nat 1) + (1 # 2))%Q
  = (20 * m + P) / (2 * P).
Proof.
  intros HP. unfold Qfloor, Qplus, Qmult, inject_Z. cbn [Qnum Qden].
  change (10 ^ Z.of_nat 1) with 10.
  rewrite !Pos2Z.inj_mul, Z2Pos.id by exact HP.
  f_equal; lia.
Qed.

(** The rounded hundredth of [c] still rounds to the same integer as
    [c / 100]: the grid of doubles around it is finer than 1/50. *)
Lemma round_hundredth (c P' : Z) :
  0 <= c -> 32 <= P' ->
  let m := nearest_even (c * (2 * P')) 100 in
  (2 * m + 2 * P') / (2 * (2 * P')) = (c + 50) / 100.
Proof.
  intros Hc HP m.
  destruct (nearest_even_bounds (c * (2 * P')) 100 ltac:(lia)) as [[Hlo _] [_ Hhi]].
  fold m in Hlo, Hhi.
  pose proof (Z.div_mod (c + 50) 100 ltac:(lia)) as Hdm.
  pose proof (Z.mod_pos_bound (c + 50) 100 ltac:(lia)) as Hr.
  set (h := (c + 50) / 100) in *. set (r := (c + 50) mod 100) in *.
  assert (Hfloor : (2 * h - 1) * P' <= c * (2 * P') / 100).
  { apply Z.div_le_lower_bound; [lia | nia]. }
  symmetry. apply Z.div_unique with (r := 2 * m + 2 * P' - 2 * (2 * P') * h); nia.
Qed.

(** Ten times the rounded tenth of [h] rounds to [h]. *)
Lemma round_tenth (h P : Z) :
  0 <= h -> 16 <= P ->
  let m := nearest_even (h * 100 * P) 1000 in
  (20 * m + P) / (2 * P) = h.
Proof.
  intros Hh HP m.
  destruct (nearest_even_bounds (h * 100 * P) 1000 ltac:(lia)) as [_ [Hlo Hhi]].
  fold m in Hlo, Hhi.
  symmetry. apply Z.div_unique with (r := 20 * m + P - 2 * P * h); nia.
Qed.

Lemma log2_lt (n b : Z) : 0 < n -> n < 2 ^ b -> Z.log2 n < b.
Proof. intros Hn Hlt. apply Z.log2_lt_pow2; assumption. Qed.

(** [count / 100] rounds, as a Number, to the integer that the exact
    quotient rounds to. *)
Lemma Math_round_divide_100 (c : Z) :
  1000 <= c <= 2 ^ 53 ->
  Math_round (divide c 100) = round_to_hundreds c.
Proof.
  intros Hc. unfold divide, Math_round, round_to_hundreds.
  change (inject_Z c / inject_Z 100)%Q with (c * 1 # 1 * 100).
  assert (Hq : 10 <= c / 100 < 2 ^ 47).
  { split; [apply Z.div_le_lower_bound; lia|].
    apply Z.div_lt_upper_bound; [lia|]. change (2 ^ 53) with 9007199254740992 in Hc.
    change (2 ^ 47) with 140737488355328. lia. }
  assert (HL : Z.log2 (Qfloor (c * 1 # 1 * 100)) < 47).
  { unfold Qfloor. change (Z.pos (1 * 100)) with 100. rewrite Z.mul_1_r.
    apply log2_lt; lia. }
  rewrite to_Number_fraction by (cbv zeta; lia).
  set (L := Z.log2 (Qfloor (c * 1 # 1 * 100))) in *.
  cbn [Qnum Qden]. change (Z.pos (1 * 100)) with 100. rewrite Z.mul_1_r.
  set (k := 52 - L) in *.
  assert (Hk : 6 <= k) by (unfold k; lia).
  assert (HP : 2 ^ k = 2 * 2 ^ (k - 1)).
  { rewrite <- Z.pow_succ_r by lia. f_equal. lia. }
  assert (HP' : 32 <= 2 ^ (k - 1)).
  { change 32 with (2 ^ 5). apply Z.pow_le_mono_r; lia. }
  rewrite Qfloor_round by lia. rewrite HP.
  apply round_hundredth; lia.
Qed.

(** An even integer below [2^54] is a Number. *)
Lemma multiply_exact (a b : Z) :
  1 <= a * b < 2 ^ 54 -> (a * b) mod 2 = 0 -> multiply a b = a * b.
Proof.
  intros Hn Heven. unfold multiply. set (n := a * b) in *.
  assert (HL : Z.log2 (Qfloor (inject_Z n)) < 54).
  { rewrite Qfloor_Z. apply log2_lt; lia. }
  destruct (Z.lt_ge_cases (Z.log2 (Qfloor (inject_Z n))) 52) as [Hsmall|Hbig].
  - rewrite to_Number_fraction by (cbv zeta; lia). cbn [Qnum Qden inject_Z].
    set (k := 52 - Z.log2 (Qfloor (inject_Z n))) in *.
    assert (0 < 2 ^ k) by (apply Z.pow_pos_nonneg; lia).
    rewrite nearest_even_exact by (try apply Z.mod_1_r; lia).
    rewrite Z.div_1_r. unfold Qfloor, Qmult. cbn [Qnum Qden].
    rewrite Pos2Z.inj_mul, Z2Pos.id, Z.mul_1_r, Z.mul_1_l by lia.
    apply Z.div_mul. lia.
  - unfold to_Number, pow2.
    assert (He : Z.log2 (Qfloor (inject_Z n)) - 52 = 0
                 \/ Z.log2 (Qfloor (inject_Z n)) - 52 = 1) by lia.
    destruct He as [-> | ->]; cbn [Z.leb Z.compare Qnum Qden inject_Z].
    + change (Z.pos 1 * 2 ^ 0) with 1.
      rewrite nearest_even_exact by (try apply Z.mod_1_r; lia).
      rewrite Z.div_1_r. unfold Qfloor, Qmult. cbn [Qnum Qden].
      change (2 ^ 0) with 1. cbn [Qnum Qden inject_Z]. rewrite Z.mul_1_r.
      apply Z.div_1_r.
    + change (Z.pos 1 * 2 ^ 1) with 2.
      rewrite nearest_even_exact by (try exact Heven; lia).
      unfold Qfloor, Qmult. cbn [Qnum Qden]. change (2 ^ 1) with 2.
      rewrite Z.div_1_r. cbn [Qnum inject_Z].
      pose proof (Z.div_mod n 2 ltac:(lia)). lia.
Qed.

(** The largest Number is a count, and its own [roundedCount]. *)
Lemma roundedCount_MAX_VALUE :
  rounds_to MAX_VALUE MAX_VALUE = true /\ roundedCount MAX_VALUE = MAX_VALUE.
Proof. vm_compute. split; reflexivity. Qed.

Lemma roundedCount_exact (c : Z) :
  1000 <= c <= 2 ^ 53 -> roundedCount c = round_to_hundreds c * 100.
Proof.
  intros Hc. unfold roundedCount. rewrite Math_round_divide_100 by exact Hc.
  unfold round_to_hundreds.
  pose proof (Z.mul_div_le (c + 50) 100 ltac:(lia)).
  pose proof (Z.mul_succ_div_gt (c + 50) 100 ltac:(lia)).
  change (2 ^ 53) with 9007199254740992 in Hc.
  apply multiply_exact.
  - change (2 ^ 54) with 18014398509481984. lia.
  - replace ((c + 50) / 100 * 100) with (((c + 50) / 100 * 50) * 2) by lia.
    apply Z.mod_mul. lia.
Qed.


(** [toFixed(1)] of [h] hundreds counted in thousands. *)
Lemma toFixed_tenths (h : Z) :
  10 <= h <= 2 ^ 47 ->
  toFixed (divide (h * 100) 1000) 1
  = digits (h / 10) +:+ "." +:+ digits (h mod 10).
Proof.
  intros Hh. unfold divide.
  change (inject_Z (h * 100) / inject_Z 1000)%Q with (h * 100 * 1 # 1 * 1000).
  change (2 ^ 47) with 140737488355328 in Hh.
  assert (Hq : 1 <= h * 100 * 1 / 1000 < 2 ^ 44).
  { split; [apply Z.div_le_lower_bound; lia|].
    apply Z.div_lt_upper_bound; [lia|]. change (2 ^ 44) with 17592186044416. lia. }
  assert (HL : Z.log2 (Qfloor (h * 100 * 1 # 1 * 1000)) < 44).
  { unfold Qfloor. change (Z.pos (1 * 1000)) with 1000. apply log2_lt; lia. }
  rewrite to_Number_fraction by (cbv zeta; lia).
  set (L := Z.log2 (Qfloor (h * 100 * 1 # 1 * 1000))) in *.
  cbn [Qnum Qden]. change (Z.pos (1 * 1000)) with 1000. rewrite Z.mul_1_r.
  set (k := 52 - L) in *.
  assert (HP : 16 <= 2 ^ k < 2 ^ 53 /\ 0 < 2 ^ k).
  { assert (0 <= L) by apply Z.log2_nonneg.
    split; [split|].
    - change 16 with (2 ^ 4). apply Z.pow_le_mono_r; unfold k; lia.
    - apply Z.pow_lt_mono_r; unfold k; lia.
    - apply Z.pow_pos_nonneg; unfold k; lia. }
  set (P := 2 ^ k) in *.
  set (m := nearest_even (h * 100 * P) 1000).
  destruct (nearest_even_bounds (h * 100 * P) 1000 ltac:(lia)) as [[Hfloor _] [Hlo Hhi]].
  fold m in Hfloor, Hlo, Hhi.
  assert (Hm : 0 <= m).
  { etransitivity; [|exact Hfloor]. apply Z.div_pos; nia. }
  unfold toFixed.
  assert (Hpos : Qle_bool 0 (inject_Z m * (1 # Z.to_pos P))%Q = true).
  { unfold Qle_bool, Qmult, inject_Z. cbn [Qnum Qden]. apply Z.leb_le. lia. }
  assert (Hbelow : Qle_bool (inject_Z (10 ^ 21)) (inject_Z m * (1 # Z.to_pos P))%Q = false).
  { unfold Qle_bool, Qmult, inject_Z. cbn [Qnum Qden].
    rewrite Pos2Z.inj_mul, Z2Pos.id by lia.
    change (10 ^ 21) with 1000000000000000000000.
    change (2 ^ 53) with 9007199254740992 in HP.
    apply Z.leb_gt. nia. }
  rewrite Hpos, Hbelow, append_nil_l.
  rewrite Qfloor_round_tenths by lia.
  assert (Hn : (20 * m + P) / (2 * P) = h).
  { symmetry. apply Z.div_unique with (r := 20 * m + P - 2 * P * h); nia. }
  rewrite Hn. apply place_point_tenths. lia.
Qed.

Lemma digit_zero_iff (d : Z) :
  0 <= d < 10 ->
  digits d = String (pretty_N_char (Z.to_N d)) ""
  /\ (Ascii.eqb (pretty_N_char (Z.to_N d)) "0" = (d =? 0)).
Proof.
  intros Hd. unfold digits. rewrite pretty_Z_nonneg by lia.
  rewrite pretty_N_digit by lia. split; [reflexivity|].
  destruct (Z.eqb_spec d 0) as [->|Hne]; [reflexivity|].
  apply Ascii.eqb_neq. intros E.
  apply (pretty_N_char_inj _ 0%N) in E; lia.
Qed.

Lemma Number_toString_small (n : Z) :
  0 <= n < 10 ^ 21 -> Number_toString n = digits n.
Proof.
  intros Hn. unfold Number_toString.
  rewrite (proj2 (Z.ltb_ge n 0)) by lia.
  rewrite Z.abs_eq by lia.
  now rewrite (proj2 (Z.ltb_lt n (10 ^ 21))) by lia.
Qed.

Lemma formatStarCount_thousands (c : Z) :
  1000 <= c <= 2 ^ 53 -> formatStarCount (Some c) = spec_thousands c.
Proof.
  intros Hc. unfold formatStarCount, spec_thousands.
  rewrite (proj2 (Z.leb_le 1000 c)) by lia.
  rewrite roundedCount_exact by exact Hc.
  set (h := round_to_hundreds c).
  assert (Hh : 10 <= h <= 2 ^ 47).
  { unfold h, round_to_hundreds. change (2 ^ 53) with 9007199254740992 in *.
    change (2 ^ 47) with 140737488355328.
    split; [apply Z.div_le_lower_bound; lia|].
    apply Z.lt_le_incl, Z.div_lt_upper_bound; lia. }
  rewrite toFixed_tenths by exact Hh.
  destruct (digit_zero_iff (h mod 10)) as [Hd Hz]; [apply Z.mod_pos_bound; lia|].
  rewrite Hd, replace_dot0_point, Hz.
  destruct (h mod 10 =? 0); [reflexivity|].
  now rewrite !append_assoc.
Qed.

End FormatFacts.

(** C1, as amended.  For every count [c] from 0 to 2^53, the range in
    which every integer is a Number: below one thousand the formatter
    returns [String(c)], the decimal digits of [c]; from one thousand on it
    returns the count rounded to the nearest hundred and scaled to
    thousands, with one decimal that is dropped when it is zero, followed
    by ["k"].  The four examples of the specification hold. *)
Theorem formatStarCount_rule (c : Z) :
  0 <= c <= 2 ^ 53 ->
  (c < 1000 ->
     Format.formatStarCount (Some c) = Format.Number_toString c
     /\ Format.Number_toString c = Format.digits c)
  /\ (1000 <= c -> Format.formatStarCount (Some c) = Format.spec_thousands c)
  /\ Format.formatStarCount (Some 999) = "999"
  /\ Format.formatStarCount (Some 1000) = "1k"
  /\ Format.formatStarCount (Some 1250) = "1.3k"
  /\ Format.formatStarCount (Some 15800) = "15.8k".
Proof.
  intros Hc. split; [|split].
  - intros Hlt. split.
    + unfold Format.formatStarCount. now rewrite (proj2 (Z.leb_gt 1000 c) Hlt).
    + apply Number_toString_small. change (10 ^ 21) with 1000000000000000000000. lia.
  - intros Hk. apply formatStarCount_thousands. lia.
  - repeat split; vm_compute; reflexivity.
Qed.

Lemma formatStarCount_rule_witness :
  0 <= 15849 <= 2 ^ 53
  /\ Format.formatStarCount (Some 15849) = "15.8k"
  /\ Format.formatStarCount (Some 42) = "42".
Proof.
  assert (Hin : 0 <= 15849 <= 2 ^ 53) by (vm_compute; split; discriminate).
  assert (Hin' : 0 <= 42 <= 2 ^ 53) by (vm_compute; split; discriminate).
  split; [exact Hin|]. split.
  - destruct (formatStarCount_rule 15849 Hin) as (_ & Hk & _).
    rewrite Hk by lia. vm_compute. reflexivity.
  - destruct (formatStarCount_rule 42 Hin') as (Hs & _).
    destruct Hs as [Hs _]; [lia|]. rewrite Hs. vm_compute. reflexivity.
Defined.

(** Above 2^53 the doubles are too coarse for the rule.  The count
    2^55 + 80 is a Number; the rule gives 36028797018964 thousands and no
    decimal, but [count / 100] rounds to a Number ending in .5,
    [Math.round] takes it up, the product rounds to 36028797018964096, and
    the formatter prints one tenth more. *)
Lemma formatStarCount_above_2_53 :
  let c := 2 ^ 55 + 80 in
  0 <= c
  /\ Format.rounds_to c c = true
  /\ Format.round_to_hundreds c * 100 = 36028797018964000
  /\ Format.spec_thousands c = "36028797018964k"
  /\ Format.roundedCount c = 36028797018964096
  /\ Format.formatStarCount (Some c) = "36028797018964.1k"
  /\ Format.formatStarCount (Some c) <> Format.spec_thousands c.
Proof.
  cbv zeta. split; [vm_compute; discriminate|].
  split; [vm_compute; reflexivity|]. split; [vm_compute; reflexivity|].
  split; [vm_compute; reflexivity|]. split; [vm_compute; reflexivity|].
  split; [vm_compute; reflexivity|]. vm_compute. discriminate.
Qed.

(** ** The star-count request *)

Section FetchFacts.
Import Fetch.

(** The guard of [fetchStars] on the parsed payload rejects exactly the
    payloads without a numeric [stargazers_count]. *)
Lemma payload_guard (data : json) :
  negb (truthy data)
  || negb (String.eqb (typeof (get_property data "stargazers_count")) "number")
  = negb (has_star_count data).
Proof.
  destruct data as [| b | n | s | items | fields]; simpl;
    try reflexivity; try (now rewrite orb_true_r).
  destruct (fields !! "stargazers_count") as [[]|]; reflexivity.
Qed.

(** [fetchStars] always completes normally: whatever is thrown inside is
    caught. *)
Lemma fetchStars_completes (request : settled response) (st : state) :
  fst (fetchStars request st) = Normal tt.
Proof.
  unfold fetchStars, try_catch, mbind, M_bind, await, console_log, console_error.
  destruct request as [r|e]; simpl; [|reflexivity].
  destruct (ok r); simpl; [|reflexivity].
  destruct (body r) as [data|e]; simpl; [|reflexivity].
  destruct (negb (truthy data) || _); simpl; [reflexivity|].
  destruct (get_property data "stargazers_count") as [[]|]; reflexivity.
Qed.

(** A failing request leaves the star count as it was. *)
Lemma fetchStars_failing (request : settled response) (st : state) :
  failing request = true ->
  lumeStars (snd (fetchStars request st)) = lumeStars st.
Proof.
  unfold failing, network_failure, non_success_status, malformed_payload.
  unfold fetchStars, try_catch, mbind, M_bind, await, console_log, console_error.
  destruct request as [r|e]; simpl; [|reflexivity].
  destruct (ok r); simpl; [|reflexivity].
  destruct (body r) as [data|e]; simpl; [|reflexivity].
  rewrite payload_guard. intros ->. reflexivity.
Qed.

(** A request that does not fail stores the count it carries. *)
Lemma fetchStars_success (request : settled response) (st : state) :
  failing request = false ->
  exists n, lumeStars (snd (fetchStars request st)) = Some n.
Proof.
  unfold failing, network_failure, non_success_status, malformed_payload.
  unfold fetchStars, try_catch, mbind, M_bind, await, console_log, console_error.
  destruct request as [r|e]; simpl; [|discriminate].
  destruct (ok r); simpl; [|discriminate].
  destruct (body r) as [data|e]; simpl; [|discriminate].
  rewrite payload_guard. intros E. rewrite E.
  destruct data as [| | | | |fields]; simpl in *; try discriminate.
  destruct (fields !! "stargazers_count") as [[| | n | | |]|];
    simpl in *; try discriminate.
  now exists n.
Qed.

(** Running [fetchStars] to its first [await] and resuming it when the
    request settles is running it in one go. *)
Lemma fetchStars_split (request : settled response) (st : state) :
  fetchStars_resume request (snd (fetchStars_start st)) = fetchStars request st.
Proof. reflexivity. Qed.

End FetchFacts.

(** C2. When the request fails -- it throws, it answers with a non-success
    status, or its payload has no numeric [stargazers_count] -- the routine
    completes without throwing, the star count stays [null], and the
    formatted count is the default ["0"]. *)
Theorem fetch_failure_keeps_default
    (request : Fetch.settled Fetch.response) (log : list (Fetch.level * string)) :
  Fetch.failing request = true ->
  let result := Fetch.fetchStars request (Fetch.State None log) in
  fst result = Fetch.Normal tt
  /\ Fetch.lumeStars (snd result) = None
  /\ Format.formatStarCount (Fetch.lumeStars (snd result)) = "0".
Proof.
  intros Hfail result. subst result.
  rewrite fetchStars_completes, fetchStars_failing by exact Hfail.
  repeat split.
Qed.

Lemma fetch_failure_keeps_default_witness :
  let not_found :=
    Fetch.Fulfilled (Fetch.Response false 404 "Not Found" None None
                                    (Fetch.Fulfilled Fetch.JNull)) in
  let result := Fetch.fetchStars not_found (Fetch.State None []) in
  Fetch.failing not_found = true
  /\ fst result = Fetch.Normal tt
  /\ Fetch.lumeStars (snd result) = None
  /\ Format.formatStarCount (Fetch.lumeStars (snd result)) = "0".
Proof.
  split; [reflexivity|].
  apply (fetch_failure_keeps_default
           (Fetch.Fulfilled (Fetch.Response false 404 "Not Found" None None
                                            (Fetch.Fulfilled Fetch.JNull))) []).
  reflexivity.
Defined.

(** ** Theme preference *)

Section ThemeFacts.
Import Theme.

Lemma classList_toggle_twice (token : string) (cl : gset string) :
  classList_toggle token (classList_toggle token cl) = cl.
Proof.
  unfold classList_toggle.
  destruct (decide (token ∈ cl)) as [Hin|Hout].
  - rewrite decide_False
      by (rewrite elem_of_difference, elem_of_singleton; tauto).
    apply set_eq. intros x.
    rewrite elem_of_union, elem_of_difference, elem_of_singleton.
    destruct (decide (x = token)) as [->|Hne]; tauto.
  - rewrite decide_True
      by (rewrite elem_of_union, elem_of_singleton; tauto).
    apply set_eq. intros x.
    rewrite elem_of_difference, elem_of_union, elem_of_singleton.
    split; [tauto|]. intros Hx. split; [tauto|]. intros ->. contradiction.
Qed.

Lemma toggleTheme_storage (st : state) :
  localStorage (toggleTheme st) !! "theme"
  = Some (theme_name (isDarkMode (toggleTheme st))).
Proof. unfold toggleTheme, theme_name. simpl. apply lookup_insert_eq. Qed.

Lemma toggleTheme_other_keys (st : state) (key : string) :
  key <> "theme" ->
  localStorage (toggleTheme st) !! key = localStorage st !! key.
Proof. intros Hk. unfold toggleTheme. simpl. now apply lookup_insert_ne. Qed.

Lemma toggleTheme_twice_storage (st : state) :
  localStorage (toggleTheme (toggleTheme st))
  = <["theme" := theme_name (isDarkMode st)]> (localStorage st).
Proof.
  unfold toggleTheme, theme_name. simpl.
  rewrite insert_insert_eq, negb_involutive. reflexivity.
Qed.

(** The effect writes neither the preference nor the storage. *)
Lemma applyTheme_keeps (st : state) : isDarkMode (applyTheme st) = isDarkMode st.
Proof. unfold applyTheme. now destruct (isDarkMode st). Qed.

Lemma applyTheme_keeps_storage (st : state) :
  localStorage (applyTheme st) = localStorage st.
Proof. unfold applyTheme. now destruct (isDarkMode st). Qed.

End ThemeFacts.

(** C3, as amended.  Two toggles in a row, with or without the theme
    effect running after each, restore the preference.  The stored value
    after them is the name of the original preference: it is the original
    stored value exactly when that value already named the preference. *)
Theorem toggleTheme_twice (st : Theme.state) :
  let twice := Theme.toggleTheme (Theme.toggleTheme st) in
  let pressed_twice :=
    Theme.applyTheme (Theme.toggleTheme (Theme.applyTheme (Theme.toggleTheme st))) in
  Theme.isDarkMode twice = Theme.isDarkMode st
  /\ Theme.isDarkMode pressed_twice = Theme.isDarkMode st
  /\ Theme.localStorage pressed_twice = Theme.localStorage twice
  /\ Theme.localStorage twice !! "theme"
     = Some (Theme.theme_name (Theme.isDarkMode st))
  /\ (Theme.localStorage twice !! "theme" = Theme.localStorage st !! "theme"
      <-> Theme.localStorage st !! "theme"
          = Some (Theme.theme_name (Theme.isDarkMode st))).
Proof.
  intros twice pressed_twice. subst twice pressed_twice.
  rewrite toggleTheme_twice_storage.
  split; [apply negb_involutive|].
  split; [|split].
  - rewrite !applyTheme_keeps. simpl. rewrite applyTheme_keeps. simpl.
    apply negb_involutive.
  - rewrite applyTheme_keeps_storage. unfold Theme.toggleTheme at 1. simpl.
    rewrite !applyTheme_keeps, applyTheme_keeps_storage. simpl.
    rewrite insert_insert_eq, negb_involutive. reflexivity.
  - split; [apply lookup_insert_eq|].
    rewrite lookup_insert_eq. split; congruence.
Qed.

Lemma toggleTheme_twice_witness :
  let st := Theme.mount {["theme" := "light"]} ∅ in
  let twice := Theme.toggleTheme (Theme.toggleTheme st) in
  Theme.localStorage st !! "theme" = Some (Theme.theme_name (Theme.isDarkMode st))
  /\ Theme.isDarkMode twice = Theme.isDarkMode st
  /\ Theme.localStorage twice !! "theme" = Theme.localStorage st !! "theme".
Proof.
  cbv zeta.
  assert (Hs : Theme.localStorage (Theme.mount {["theme" := "light"]} ∅) !! "theme"
               = Some (Theme.theme_name
                         (Theme.isDarkMode (Theme.mount {["theme" := "light"]} ∅))))
    by reflexivity.
  split; [exact Hs|].
  destruct (toggleTheme_twice (Theme.mount {["theme" := "light"]} ∅))
    as (Hp & _ & _ & _ & Hkey).
  split; [exact Hp | exact (proj2 Hkey Hs)].
Defined.

(** A first visit: nothing is stored, the page starts light, and after two
    toggles the key holds ["light"]. *)
Lemma toggleTheme_twice_fresh_storage :
  let st := Theme.mount ∅ ∅ in
  let st2 := Theme.toggleTheme (Theme.toggleTheme st) in
  Theme.isDarkMode st = false
  /\ Theme.localStorage st !! "theme" = None
  /\ Theme.localStorage st2 !! "theme" = Some "light"
  /\ Theme.localStorage st2 !! "theme" <> Theme.localStorage st !! "theme".
Proof.
  cbv zeta. rewrite toggleTheme_twice_storage, lookup_insert_eq.
  repeat split; discriminate.
Qed.

(** C6. After [toggleTheme] the key holds ["dark"] or ["light"], and it
    holds ["dark"] exactly when the new preference is dark. *)
Theorem toggleTheme_persists_preference (st : Theme.state) :
  let st' := Theme.toggleTheme st in
  (Theme.localStorage st' !! "theme" = Some "dark"
   \/ Theme.localStorage st' !! "theme" = Some "light")
  /\ (Theme.localStorage st' !! "theme" = Some "dark" <-> Theme.isDarkMode st' = true)
  /\ (Theme.localStorage st' !! "theme" = Some "light" <-> Theme.isDarkMode st' = false)
  /\ Theme.isDarkMode st' = negb (Theme.isDarkMode st)
  /\ Theme.initial_isDarkMode (Theme.localStorage st') = Theme.isDarkMode st'.
Proof.
  intros st'. subst st'. unfold Theme.initial_isDarkMode.
  rewrite toggleTheme_storage. unfold Theme.theme_name.
  destruct (Theme.isDarkMode (Theme.toggleTheme st)) eqn:E.
  - repeat split; auto; try discriminate. 
  - repeat split; auto; try discriminate.
Qed.

(** C9. The page starts dark exactly when the stored value is ["dark"];
    with no stored value, with ["light"], or with any other string it
    starts light. *)
Theorem initial_theme (storage : gmap string string) (classes : gset string) :
  (Theme.isDarkMode (Theme.mount storage classes) = true
   <-> storage !! "theme" = Some "dark")
  /\ (Theme.isDarkMode (Theme.mount storage classes) = false
      <-> storage !! "theme" <> Some "dark")
  /\ Theme.initial_isDarkMode ∅ = false
  /\ Theme.initial_isDarkMode {["theme" := "light"]} = false
  /\ Theme.initial_isDarkMode {["theme" := "Dark"]} = false
  /\ Theme.initial_isDarkMode {["theme" := "dark"]} = true.
Proof.
  assert (Hm : Theme.isDarkMode (Theme.mount storage classes)
               = Theme.initial_isDarkMode storage).
  { unfold Theme.mount, Theme.applyTheme. simpl.
    destruct (Theme.initial_isDarkMode storage); reflexivity. }
  rewrite Hm. unfold Theme.initial_isDarkMode.
  split; [apply bool_decide_eq_true|].
  split; [apply bool_decide_eq_false|].
  repeat split.
Qed.

(** ** The outside-click handler *)

Section MenuFacts.
Import Dom.

(** Induction along the chain of parents. *)
Lemma element_chain_ind (P : element -> Prop) :
  (forall attrs, P (Element attrs None)) ->
  (forall attrs p, P p -> P (Element attrs (Some p))) ->
  forall e, P e.
Proof.
  intros Hroot Hchild. fix IH 1. intros [attrs [p|]].
  - apply Hchild, IH.
  - apply Hroot.
Qed.

(** [closest] finds an element exactly when the target is inside a marked
    one. *)
Lemma closest_inside (name : string) (e : element) :
  is_Some (closest name e) <-> inside name e.
Proof.
  induction e as [attrs | attrs p IH] using element_chain_ind; simpl.
  - destruct (bool_decide (is_Some (attrs !! name))) eqn:E.
    + split; [intros _ | eauto]. now apply inside_self.
    + split; [intros [? ?]; discriminate|].
      inversion 1 as [e' Hm|]; subst.
      unfold has_attribute in Hm. simpl in Hm. congruence.
  - destruct (bool_decide (is_Some (attrs !! name))) eqn:E.
    + split; [intros _ | eauto]. now apply inside_self.
    + rewrite IH. split; [apply inside_parent|].
      inversion 1 as [e' Hm|]; subst; [|assumption].
      unfold has_attribute in Hm. simpl in Hm. congruence.
Qed.

Lemma handleClick_open (target : element) :
  (inside "data-menu-container" target -> Menu.handleClick true target = true)
  /\ (~ inside "data-menu-container" target -> Menu.handleClick true target = false).
Proof.
  unfold Menu.handleClick. simpl.
  destruct (bool_decide (is_Some (closest "data-menu-container" target))) eqn:E.
  - split; [reflexivity|]. intros Hout. exfalso. apply Hout.
    apply bool_decide_eq_true in E. now apply closest_inside.
  - split; [|reflexivity]. intros Hin. apply closest_inside in Hin.
    apply bool_decide_eq_false in E. contradiction.
Qed.

Lemma handleClick_closed (target : element) :
  Menu.handleClick false target = false.
Proof. reflexivity. Qed.

End MenuFacts.

(** C4. While the menu is open, a document click whose target is not
    inside an element marked [data-menu-container] closes the menu; a click
    whose target is inside one leaves it open.  Nothing else on the page
    changes. *)
Theorem document_click_while_open (st : Page.state) (target : Dom.element) :
  Page.isMenuOpen st = true ->
  let st' := Page.step st (Page.DocumentClick target) in
  (~ Dom.inside "data-menu-container" target -> Page.isMenuOpen st' = false)
  /\ (Dom.inside "data-menu-container" target -> Page.isMenuOpen st' = true)
  /\ Page.theme st' = Page.theme st
  /\ Page.stars st' = Page.stars st
  /\ Page.showVideo st' = Page.showVideo st
  /\ Page.tracker st' = Page.tracker st.
Proof.
  intros Hopen st'. subst st'. simpl. rewrite Hopen.
  destruct (handleClick_open target) as [Hin Hout]. auto 10.
Qed.

Lemma document_click_while_open_witness :
  let body := Dom.Element ∅ None in
  let menu := Dom.Element {["data-menu-container" := ""]} (Some body) in
  let link := Dom.Element {["href" := "https://github.com/trycua"]} (Some menu) in
  let st := Page.step (Page.mount (Page.Browser ∅ ∅ (Scroll.Metrics 0 0 0)))
                      Page.MenuButtonClick in
  Page.isMenuOpen st = true
  /\ Page.isMenuOpen (Page.step st (Page.DocumentClick link)) = true
  /\ Page.isMenuOpen (Page.step st (Page.DocumentClick body)) = false.
Proof.
  cbv zeta.
  set (body := Dom.Element ∅ None).
  set (menu := Dom.Element {["data-menu-container" := ""]} (Some body)).
  set (link := Dom.Element _ (Some menu)).
  set (st := Page.step _ Page.MenuButtonClick).
  assert (Hopen : Page.isMenuOpen st = true) by reflexivity.
  split; [exact Hopen|]. split.
  - destruct (document_click_while_open st link Hopen) as (_ & Hin & _).
    apply Hin, Dom.inside_parent, Dom.inside_self. reflexivity.
  - destruct (document_click_while_open st body Hopen) as (Hout & _).
    apply Hout. inversion 1 as [e Hm|]. discriminate Hm.
Defined.

(** C10. The document click handler never opens the menu: on a closed menu
    it changes nothing, and whenever it changes the state the menu was open
    and is now closed. *)
Theorem document_click_never_opens (st : Page.state) (target : Dom.element) :
  let st' := Page.step st (Page.DocumentClick target) in
  (Page.isMenuOpen st = false -> st' = st)
  /\ (Page.isMenuOpen st' = true -> Page.isMenuOpen st = true)
  /\ (Page.isMenuOpen st' <> Page.isMenuOpen st ->
      Page.isMenuOpen st = true /\ Page.isMenuOpen st' = false).
Proof.
  intros st'. subst st'. destruct st as [th sc fp op sv tr]. simpl.
  destruct op.
  - split; [discriminate|]. split; [reflexivity|].
    intros Hne. split; [reflexivity|].
    destruct (Menu.handleClick true target); [contradiction | reflexivity].
  - rewrite handleClick_closed. split; [reflexivity|].
    split; [discriminate | contradiction].
Qed.

(** ** The video modal *)

(** C7. While the modal is shown, a click on the backdrop hides it and a
    click on the content box leaves it shown: the box's handler stops the
    click before it reaches the backdrop's handler, which would hide the
    modal. *)
Theorem modal_click (st : Page.state) :
  Page.showVideo st = true ->
  Page.showVideo (Page.step st (Page.ModalClick Modal.Overlay)) = false
  /\ Page.step st (Page.ModalClick Modal.Content) = st
  /\ Modal.path Modal.Content = [Modal.Content; Modal.Overlay]
  /\ snd (Modal.onClick Modal.Content true) = true
  /\ Modal.propagate [Modal.Overlay] true = false.
Proof.
  intros Hshown. destruct st as [th sc fp op sv tr]. simpl in *. subst sv.
  repeat split.
Qed.

Lemma modal_click_witness :
  let st := Page.step (Page.mount (Page.Browser ∅ ∅ (Scroll.Metrics 0 0 0)))
                      Page.WatchDemoClick in
  Page.showVideo st = true
  /\ Page.showVideo (Page.step st (Page.ModalClick Modal.Overlay)) = false
  /\ Page.showVideo (Page.step st (Page.ModalClick Modal.Content)) = true.
Proof.
  cbv zeta. set (st := Page.step _ Page.WatchDemoClick).
  assert (Hshown : Page.showVideo st = true) by reflexivity.
  destruct (modal_click st Hshown) as (Hback & Hbox & _).
  rewrite Hback, Hbox. auto.
Defined.

(** ** Timers and scroll tracking *)

Section ScrollFacts.
Import Scroll.

Implicit Types (st : state) (cb : callback) (src : source) (m : metrics).

(** *** Running the callbacks of one tick *)

Lemma foldl_run_callback st (cbs : list callback) :
  foldl run_callback st cbs
  = State (match cbs with
           | [] => isScrolled st
           | _ => hasScrollableContent (document st) && hasScrolled (document st)
           end)
          (isInitialized st || existsb is_init cbs)
          (document st) (loop st) (scrollTimeoutId st) (resizeTimeoutId st)
          (reverse ((fun cb => Call (clock st) cb (document st)) <$> cbs) ++ calls st).
Proof.
  revert st. induction cbs as [|cb cbs IH]; intros st.
  - destruct st. simpl. now rewrite orb_false_r.
  - simpl foldl. rewrite IH. rewrite fmap_cons, reverse_cons, <- app_assoc.
    destruct st, cb, cbs; simpl; rewrite ?orb_true_r, ?orb_false_r; reflexivity.
Qed.

Lemma tick_eq st :
  let t := S (clock st) in
  let due := filter (fun x => (Timers.due x <= t)%nat) (Timers.pending (loop st)) in
  tick st
  = State (match due with
           | [] => isScrolled st
           | _ => hasScrollableContent (document st) && hasScrolled (document st)
           end)
          (isInitialized st || existsb is_init (Timers.callback <$> due))
          (document st)
          (Timers.Loop t (Timers.next_id (loop st))
             (filter (fun x => ¬ (Timers.due x <= t)%nat) (Timers.pending (loop st))))
          (scrollTimeoutId st) (resizeTimeoutId st)
          (reverse ((fun x => Call t (Timers.callback x) (document st)) <$> due)
             ++ calls st).
Proof.
  unfold tick, Timers.tick. rewrite foldl_run_callback. simpl.
  unfold clock. simpl. rewrite <- list_fmap_compose.
  destruct (filter _ (Timers.pending (loop st))); reflexivity.
Qed.

Lemma filter_swap {A} (P Q : A -> Prop)
    `{!forall x, Decision (P x), !forall x, Decision (Q x)} (l : list A) :
  filter P (filter Q l) = filter Q (filter P l).
Proof. rewrite !list_filter_filter. apply list_filter_iff. tauto. Qed.

(** *** What one tick does for the timers and calls of one callback *)

Lemma tick_timers_of cb st :
  timers_of cb (tick st)
  = filter (fun x => ¬ (Timers.due x <= S (clock st))%nat) (timers_of cb st).
Proof. rewrite tick_eq. unfold timers_of. simpl. apply filter_swap. Qed.

Lemma tick_calls_via cb st :
  calls_via cb (tick st)
  = reverse ((fun _ => Call (S (clock st)) cb (document st))
               <$> filter (fun x => (Timers.due x <= S (clock st))%nat) (timers_of cb st))
    ++ calls_via cb st.
Proof.
  rewrite tick_eq. unfold calls_via, timers_of. simpl.
  rewrite filter_app, filter_reverse. f_equal. f_equal.
  rewrite (filter_swap _ (fun t => Timers.callback t = cb)).
  induction (filter _ (Timers.pending (loop st))) as [|x l IH]; [reflexivity|].
  rewrite fmap_cons, !filter_cons. simpl.
  destruct (decide (Timers.callback x = cb)) as [->|Hne].
  - now rewrite fmap_cons, IH.
  - exact IH.
Qed.

Lemma tick_clock st : clock (tick st) = S (clock st).
Proof. now rewrite tick_eq. Qed.

Lemma tick_document st : document (tick st) = document st.
Proof. now rewrite tick_eq. Qed.

Lemma tick_timeoutId src st : timeoutId src (tick st) = timeoutId src st.
Proof. rewrite tick_eq. now destruct src. Qed.

Lemma tick_next_id st :
  Timers.next_id (loop (tick st)) = Timers.next_id (loop st).
Proof. now rewrite tick_eq. Qed.

Lemma tick_isInitialized st :
  isInitialized (tick st)
  = isInitialized st
    || match filter (fun x => (Timers.due x <= S (clock st))%nat)
                    (timers_of InitTimeout st) with
       | [] => false
       | _ => true
       end.
Proof.
  rewrite tick_eq. simpl. f_equal. unfold timers_of.
  rewrite (filter_swap _ (fun t => Timers.callback t = InitTimeout)).
  induction (filter _ (Timers.pending (loop st))) as [|x l IH]; [reflexivity|].
  rewrite fmap_cons, filter_cons. simpl.
  destruct (decide (Timers.callback x = InitTimeout)) as [->|Hne]; [reflexivity|].
  rewrite <- IH. destruct (Timers.callback x); [contradiction | reflexivity].
Qed.

Lemma tick_over_last st :
  isScrolled st = over_last (calls st) ->
  isScrolled (tick st) = over_last (calls (tick st)).
Proof.
  intros Hs. rewrite tick_eq. simpl.
  destruct (filter _ (Timers.pending (loop st))) as [|x l] using rev_ind;
    [exact Hs|].
  rewrite fmap_app, reverse_app. simpl.
  now destruct (l ++ [x]) eqn:E; [destruct l; discriminate|].
Qed.

(** *** What a window event does *)

Lemma clearTimeout_filter (P : Timers.timer callback -> Prop)
    `{!forall x, Decision (P x)} (id : option nat) (l : Timers.loop callback) :
  filter P (Timers.pending (Timers.clearTimeout id l))
  = filter (fun t => id ≠ Some (Timers.timer_id t)) (filter P (Timers.pending l)).
Proof.
  destruct id as [i|]; simpl.
  - rewrite filter_swap. apply list_filter_iff. intros t. split; congruence.
  - induction (filter P (Timers.pending l)) as [|x ts IH]; [reflexivity|].
    rewrite filter_cons_True by discriminate. now rewrite <- IH.
Qed.

Lemma clearTimeout_now (id : option nat) (l : Timers.loop callback) :
  Timers.now (Timers.clearTimeout id l) = Timers.now l.
Proof. now destruct id. Qed.

Lemma clearTimeout_next_id (id : option nat) (l : Timers.loop callback) :
  Timers.next_id (Timers.clearTimeout id l) = Timers.next_id l.
Proof. now destruct id. Qed.

(** An event of [src] clears the timer its wrapper remembers and sets a
    new one, [delay src] from now. *)
Lemma window_event_timers_of src m st :
  timers_of (Debounced src) (window_event src m st)
  = filter (fun t => timeoutId src st ≠ Some (Timers.timer_id t))
           (timers_of (Debounced src) st)
    ++ [Timers.Timer (Timers.next_id (loop st)) (clock st + delay src) (Debounced src)].
Proof.
  unfold timers_of, clock.
  destruct src; simpl;
    rewrite filter_app, clearTimeout_filter, clearTimeout_now, clearTimeout_next_id;
    rewrite filter_cons_True, filter_nil by reflexivity; reflexivity.
Qed.

(** It leaves the timers of every other callback in the queue, unless the
    cleared id is theirs. *)
Lemma window_event_timers_of_other cb src m st :
  cb <> Debounced src ->
  timers_of cb (window_event src m st)
  = filter (fun t => timeoutId src st ≠ Some (Timers.timer_id t)) (timers_of cb st).
Proof.
  intros Hne. unfold timers_of.
  destruct src; simpl; rewrite filter_app, clearTimeout_filter;
    rewrite filter_cons_False, filter_nil, app_nil_r by (simpl; congruence);
    reflexivity.
Qed.

Lemma window_event_timeoutId src m st :
  timeoutId src (window_event src m st) = Some (Timers.next_id (loop st)).
Proof. destruct src; simpl; f_equal; apply clearTimeout_next_id. Qed.

Lemma window_event_timeoutId_other src src' m st :
  src' <> src -> timeoutId src' (window_event src m st) = timeoutId src' st.
Proof. destruct src, src'; intros Hne; try reflexivity; congruence. Qed.

Lemma window_event_calls src m st : calls (window_event src m st) = calls st.
Proof. destruct src; reflexivity. Qed.

Lemma window_event_clock src m st : clock (window_event src m st) = clock st.
Proof. unfold clock. destruct src; simpl; apply clearTimeout_now. Qed.

Lemma window_event_document src m st : document (window_event src m st) = m.
Proof. destruct src; reflexivity. Qed.

Lemma window_event_next_id src m st :
  Timers.next_id (loop (window_event src m st)) = S (Timers.next_id (loop st)).
Proof. destruct src; simpl; f_equal; apply clearTimeout_next_id. Qed.

Lemma window_event_flags src m st :
  isScrolled (window_event src m st) = isScrolled st
  /\ isInitialized (window_event src m st) = isInitialized st.
Proof. destruct src; split; reflexivity. Qed.


(** *** Invariants of the tracker *)

Lemma filter_one {A} (P : A -> Prop) `{!forall x, Decision (P x)} (x : A) :
  filter P [x] = if decide (P x) then [x] else [].
Proof. unfold filter. simpl. destruct (decide (P x)); reflexivity. Qed.

Lemma one_in_flight_tick src st : one_in_flight src st -> one_in_flight src (tick st).
Proof.
  unfold one_in_flight. rewrite tick_timers_of, tick_timeoutId.
  intros [-> | (t & -> & Hid)]; [now left|].
  rewrite filter_one. destruct (decide _); [right; eauto | now left].
Qed.

(** After an event of [src] exactly the new timer of its wrapper is
    pending. *)
Lemma window_event_sets_timer src m st :
  one_in_flight src st ->
  timers_of (Debounced src) (window_event src m st)
  = [Timers.Timer (Timers.next_id (loop st)) (clock st + delay src) (Debounced src)].
Proof.
  rewrite window_event_timers_of.
  intros [-> | (t & -> & Hid)]; [reflexivity|].
  rewrite filter_one, decide_False; [reflexivity|]. intros Hne. now apply Hne.
Qed.

Lemma one_in_flight_window_event src src' m st :
  one_in_flight src st -> one_in_flight src (window_event src' m st).
Proof.
  intros Hone. destruct (decide (src = src')) as [<-|Hne].
  - right. eexists. split; [now apply window_event_sets_timer|].
    rewrite window_event_timeoutId. reflexivity.
  - unfold one_in_flight.
    rewrite window_event_timers_of_other by congruence.
    rewrite window_event_timeoutId_other by exact Hne.
    destruct Hone as [-> | (t & -> & Hid)]; [now left|].
    rewrite filter_one. destruct (decide _); [right; eauto | now left].
Qed.

Lemma init_pending_tick st : init_pending st -> init_pending (tick st).
Proof.
  unfold init_pending, init_delay.
  rewrite tick_timers_of, tick_isInitialized, tick_clock, tick_next_id.
  intros (Ht & Hi & Hn & Hids). rewrite Ht, Hi.
  split; [|split; [|split]].
  - destruct (decide (clock st < 100)%nat); [|now rewrite decide_False by lia].
    rewrite filter_one. simpl.
    destruct (decide (S (clock st) < 100)%nat);
      [rewrite decide_True by lia | rewrite decide_False by lia]; reflexivity.
  - destruct (decide (clock st < 100)%nat).
    + rewrite filter_one. simpl. rewrite bool_decide_eq_false_2 by lia.
      destruct (decide (100 <= S (clock st))%nat).
      * now rewrite bool_decide_eq_true_2 by lia.
      * now rewrite bool_decide_eq_false_2 by lia.
    + rewrite !bool_decide_eq_true_2 by lia. reflexivity.
  - exact Hn.
  - intros src i. rewrite tick_timeoutId. apply Hids.
Qed.

Lemma init_pending_window_event src m st :
  init_pending st -> init_pending (window_event src m st).
Proof.
  unfold init_pending.
  rewrite window_event_timers_of_other by discriminate.
  rewrite window_event_clock, window_event_next_id.
  rewrite (proj2 (window_event_flags src m st)).
  intros (Ht & Hi & Hn & Hids). rewrite Ht.
  split; [|split; [exact Hi | split; [lia|]]].
  - destruct (decide (clock st < init_delay)%nat); [|reflexivity].
    rewrite filter_one, decide_True; [reflexivity|].
    simpl. intros E. apply Hids in E. lia.
  - intros src' i. destruct (decide (src' = src)) as [->|Hne].
    + rewrite window_event_timeoutId. intros [= <-]. lia.
    + rewrite window_event_timeoutId_other by exact Hne. apply Hids.
Qed.

Lemma wf_mount m : wf (mount m).
Proof.
  split; [|split].
  - intros src. left. reflexivity.
  - split; [reflexivity | split; [reflexivity | split]].
    + simpl. lia.
    + intros [] i; discriminate.
  - reflexivity.
Qed.

Lemma wf_step st (e : event) : wf st -> wf (step st e).
Proof.
  intros (Hone & Hinit & Hover). destruct e as [|src m]; simpl.
  - split; [|split].
    + intros src. apply one_in_flight_tick, Hone.
    + now apply init_pending_tick.
    + now apply tick_over_last.
  - split; [|split].
    + intros src'. apply one_in_flight_window_event, Hone.
    + now apply init_pending_window_event.
    + now rewrite (proj1 (window_event_flags src m st)), window_event_calls.
Qed.

Lemma wf_run st (es : list event) : wf st -> wf (run st es).
Proof.
  revert st. induction es as [|e es IH]; intros st Hwf; [exact Hwf|].
  simpl. apply IH, wf_step, Hwf.
Qed.


(** *** Letting time pass *)

Lemma run_app st (es1 es2 : list event) :
  run st (es1 ++ es2) = run (run st es1) es2.
Proof. apply foldl_app. Qed.

Lemma run_wait_S st (d : nat) : run st (wait (S d)) = run (tick st) (wait d).
Proof. reflexivity. Qed.

Lemma wait_frame st (d : nat) :
  clock (run st (wait d)) = (clock st + d)%nat
  /\ document (run st (wait d)) = document st
  /\ forall src, timeoutId src (run st (wait d)) = timeoutId src st.
Proof.
  revert st. induction d as [|d IH]; intros st.
  - simpl. repeat split. lia.
  - rewrite run_wait_S. destruct (IH (tick st)) as (Hc & Hd & Hi).
    rewrite Hc, Hd, tick_clock, tick_document.
    split; [lia | split; [reflexivity|]].
    intros src. now rewrite Hi, tick_timeoutId.
Qed.

(** With no timer of [cb] pending, time passing runs nothing of [cb]. *)
Lemma idle_wait cb st (d : nat) :
  timers_of cb st = [] ->
  timers_of cb (run st (wait d)) = []
  /\ calls_via cb (run st (wait d)) = calls_via cb st.
Proof.
  revert st. induction d as [|d IH]; intros st Ht; [now split|].
  rewrite run_wait_S.
  destruct (IH (tick st)) as (Ht' & Hc').
  { now rewrite tick_timers_of, Ht. }
  rewrite Ht', Hc', tick_calls_via, Ht. now split.
Qed.

(** While the one pending timer of [cb] is not due it stays pending and
    [cb] does not run. *)
Lemma quiet_wait cb st (t : Timers.timer callback) (d : nat) :
  timers_of cb st = [t] ->
  (clock st + d < Timers.due t)%nat ->
  timers_of cb (run st (wait d)) = [t]
  /\ calls_via cb (run st (wait d)) = calls_via cb st.
Proof.
  revert st. induction d as [|d IH]; intros st Ht Hdue; [now split|].
  rewrite run_wait_S.
  assert (Hkeep : timers_of cb (tick st) = [t]).
  { rewrite tick_timers_of, Ht, filter_one. now rewrite decide_True by lia. }
  destruct (IH (tick st) Hkeep) as (Ht' & Hc').
  { rewrite tick_clock. lia. }
  rewrite Ht', Hc', tick_calls_via, Ht, filter_one.
  now rewrite decide_False by lia.
Qed.

(** Once its time has come the timer fires, [cb] runs once, at the due
    time, and nothing of [cb] is pending afterwards. *)
Lemma settle_wait cb st (t : Timers.timer callback) (d : nat) :
  timers_of cb st = [t] ->
  (clock st < Timers.due t <= clock st + d)%nat ->
  timers_of cb (run st (wait d)) = []
  /\ calls_via cb (run st (wait d))
     = Call (Timers.due t) cb (document st) :: calls_via cb st.
Proof.
  revert st. induction d as [|d IH]; intros st Ht Hdue; [lia|].
  rewrite run_wait_S.
  destruct (decide (Timers.due t = S (clock st))) as [Hnow|Hlater].
  - destruct (idle_wait cb (tick st) d) as (Ht' & Hc').
    { rewrite tick_timers_of, Ht, filter_one. now rewrite decide_False by lia. }
    rewrite Ht', Hc', tick_calls_via, Ht, filter_one.
    rewrite decide_True by lia. rewrite Hnow. now split.
  - assert (Hkeep : timers_of cb (tick st) = [t]).
    { rewrite tick_timers_of, Ht, filter_one. now rewrite decide_True by lia. }
    destruct (IH (tick st) Hkeep) as (Ht' & Hc').
    { rewrite tick_clock. lia. }
    rewrite Ht', Hc', tick_document, tick_calls_via, Ht, filter_one.
    now rewrite decide_False by lia.
Qed.

Lemma delay_pos src : (0 < delay src)%nat.
Proof. destruct src; simpl; lia. Qed.

(** *** A burst *)

(** Right after a burst whose gaps are shorter than the delay, the only
    timer of the wrapper is the one set by the last event, and the wrapped
    function has not run. *)
Lemma burst_pending src m (rest : list (nat * metrics)) st :
  one_in_flight src st ->
  Forall (fun p => (p.1 < delay src)%nat) rest ->
  let st1 := run st (burst src m rest) in
  (exists id, timers_of (Debounced src) st1
              = [Timers.Timer id (clock st1 + delay src) (Debounced src)])
  /\ calls_via (Debounced src) st1 = calls_via (Debounced src) st
  /\ document st1 = last_measures m rest.
Proof.
  revert m st. induction rest as [|[gap m'] rest IH]; intros m st Hone Hgaps.
  - simpl. rewrite window_event_sets_timer by exact Hone.
    rewrite window_event_clock, window_event_document.
    unfold calls_via. rewrite window_event_calls. eauto.
  - apply Forall_cons in Hgaps as [Hgap Hgaps]. simpl in Hgap.
    cbn [burst last_measures]. cbv zeta.
    change (run st (Window src m :: wait gap ++ burst src m' rest))
      with (run (window_event src m st) (wait gap ++ burst src m' rest)).
    rewrite run_app.
    set (st' := window_event src m st).
    assert (Hset : timers_of (Debounced src) st'
              = [Timers.Timer (Timers.next_id (loop st)) (clock st' + delay src)
                              (Debounced src)]).
    { unfold st'. rewrite window_event_clock. now apply window_event_sets_timer. }
    destruct (quiet_wait _ st' _ gap Hset) as (Ht & Hc); [simpl; lia|].
    destruct (wait_frame st' gap) as (_ & _ & Hid).
    destruct (IH m' (run st' (wait gap))) as (Htimer & Hcalls & Hdoc).
    { right. eexists. split; [exact Ht|]. rewrite Hid. unfold st'.
      now rewrite window_event_timeoutId. }
    { exact Hgaps. }
    split; [exact Htimer|]. split; [|exact Hdoc].
    rewrite Hcalls, Hc. unfold st', calls_via. now rewrite window_event_calls.
Qed.

(** *** From the page to its tracker *)

Lemma tracker_step (st : Page.state) (e : Page.event) :
  Page.tracker (Page.step st e)
  = match Page.tracker_event e with
    | Some e' => step (Page.tracker st) e'
    | None => Page.tracker st
    end.
Proof.
  destruct e; simpl; try reflexivity.
  - now destruct (Page.showVideo st).
  - now destruct (Page.fetchPending st).
Qed.

Lemma tracker_run (st : Page.state) (es : list Page.event) :
  Page.tracker (Page.run st es)
  = run (Page.tracker st) (omap Page.tracker_event es).
Proof.
  revert st. induction es as [|e es IH]; intros st; [reflexivity|].
  simpl. rewrite IH, tracker_step.
  now destruct (Page.tracker_event e).
Qed.

Lemma tracker_run_of_tracker (st : Page.state) (es : list event) :
  Page.tracker (Page.run st (Page.of_tracker <$> es)) = run (Page.tracker st) es.
Proof.
  rewrite tracker_run. f_equal.
  induction es as [|e es IH]; [reflexivity|].
  destruct e; simpl; now f_equal.
Qed.

Lemma wf_page (st : Page.state) : Page.reachable st -> wf (Page.tracker st).
Proof.
  intros (b & es & ->). rewrite tracker_run. apply wf_run, wf_mount.
Qed.

End ScrollFacts.

(** C8. Take any reachable state of the page and a burst of events of one
    source in which each event follows the previous one by less than the
    quiet period (50 ms for scroll, 100 ms for resize).  During the burst
    the wrapped function is not run by the wrapper.  Once the quiet period
    has passed after the last event it has run exactly once, at the last
    event's time plus the quiet period, on the document as the last event
    left it, and no timer of the wrapper is pending.  In no reachable state
    are two timers of one wrapper pending. *)
Theorem debounce_coalesces_burst
    (src : Scroll.source) (st0 : Page.state)
    (m : Scroll.metrics) (rest : list (nat * Scroll.metrics)) (d : nat) :
  Page.reachable st0 ->
  Forall (fun p => (p.1 < Scroll.delay src)%nat) rest ->
  (Scroll.delay src <= d)%nat ->
  let st1 := Page.run st0 (Page.of_tracker <$> Scroll.burst src m rest) in
  let st2 := Page.run st1 (Page.of_tracker <$> Scroll.wait d) in
  Scroll.debounced_calls src (Page.tracker st1)
    = Scroll.debounced_calls src (Page.tracker st0)
  /\ Scroll.debounced_calls src (Page.tracker st2)
     = Scroll.Call (Scroll.clock (Page.tracker st1) + Scroll.delay src)
                   (Scroll.Debounced src) (Scroll.last_measures m rest)
       :: Scroll.debounced_calls src (Page.tracker st0)
  /\ Scroll.in_flight src (Page.tracker st2) = []
  /\ (forall es, (length (Scroll.in_flight src (Page.tracker (Page.run st0 es))) <= 1)%nat)
  /\ Scroll.delay Scroll.OnScroll = 50%nat
  /\ Scroll.delay Scroll.OnResize = 100%nat.
Proof.
  intros Hreach Hgaps Hd st1 st2. subst st2 st1.
  rewrite !tracker_run_of_tracker.
  pose proof (wf_page st0 Hreach) as (Hone & _).
  destruct (burst_pending src m rest (Page.tracker st0) (Hone src) Hgaps)
    as ((id & Htimer) & Hcalls & Hdoc).
  set (st1 := Scroll.run (Page.tracker st0) (Scroll.burst src m rest)) in *.
  destruct (settle_wait _ st1 _ d Htimer) as (Hnone & Hfired).
  { pose proof (delay_pos src). simpl. lia. }
  unfold Scroll.debounced_calls, Scroll.in_flight.
  rewrite Hfired, Hnone, Hdoc, Hcalls.
  repeat split.
  intros es.
  assert (Hwf : Scroll.wf (Page.tracker (Page.run st0 es))).
  { destruct Hreach as (b & es0 & ->). apply wf_page.
    exists b, (es0 ++ es). unfold Page.run. now rewrite foldl_app. }
  destruct Hwf as (Hone' & _).
  destruct (Hone' src) as [-> | (t & -> & _)]; simpl; lia.
Qed.

Lemma debounce_coalesces_burst_witness :
  let st0 := Page.mount (Page.Browser ∅ ∅ (Scroll.Metrics 0 2000 800)) in
  let m1 := Scroll.Metrics 40 2000 800 in
  let m2 := Scroll.Metrics 90 2000 800 in
  let m3 := Scroll.Metrics 130 2000 800 in
  let st1 := Page.run st0 (Page.of_tracker
                             <$> Scroll.burst Scroll.OnScroll m1 [(10%nat, m2); (49%nat, m3)]) in
  let st2 := Page.run st1 (Page.of_tracker <$> Scroll.wait 50) in
  Page.reachable st0
  /\ Scroll.debounced_calls Scroll.OnScroll (Page.tracker st1) = []
  /\ Scroll.debounced_calls Scroll.OnScroll (Page.tracker st2)
     = [Scroll.Call 109 (Scroll.Debounced Scroll.OnScroll) m3]
  /\ Scroll.in_flight Scroll.OnScroll (Page.tracker st2) = [].
Proof.
  cbv zeta.
  set (b := Page.Browser ∅ ∅ (Scroll.Metrics 0 2000 800)).
  assert (Hreach : Page.reachable (Page.mount b)) by (exists b, []; reflexivity).
  split; [exact Hreach|].
  destruct (debounce_coalesces_burst Scroll.OnScroll (Page.mount b)
              (Scroll.Metrics 40 2000 800)
              [(10%nat, Scroll.Metrics 90 2000 800); (49%nat, Scroll.Metrics 130 2000 800)]
              50 Hreach)
    as (Hduring & Hafter & Hnone & _).
  - repeat constructor; simpl; lia.
  - simpl. lia.
  - split; [exact Hduring|]. split; [exact Hafter | exact Hnone].
Defined.

(** C5, as amended.  In every reachable state of the page the
    initialisation flag is set exactly when 100 ms have passed since mount,
    and the floating call-to-action is shown exactly when that delay has
    passed and the most recent run of [checkScroll] measured a document
    more than 10 px taller than the viewport and scrolled by more than
    5 px. *)
Theorem cta_visible_after_measurement (b : Page.browser) (es : list Page.event) :
  let st := Page.run (Page.mount b) es in
  let tr := Page.tracker st in
  (Scroll.isInitialized tr = true <-> (Scroll.init_delay <= Scroll.clock tr)%nat)
  /\ (Page.ctaVisible st = true <->
      (Scroll.init_delay <= Scroll.clock tr)%nat
      /\ exists c older,
           Scroll.calls tr = c :: older
           /\ Scroll.clientHeight (Scroll.measured c) + 10
              < Scroll.scrollHeight (Scroll.measured c)
           /\ 5 < Scroll.scrollTop (Scroll.measured c)).
Proof.
  intros st tr.
  assert (Hwf : Scroll.wf tr) by (apply wf_page; exists b, es; reflexivity).
  destruct Hwf as (_ & (_ & Hinit & _) & Hover).
  assert (Hflag : Scroll.isInitialized tr = true
                  <-> (Scroll.init_delay <= Scroll.clock tr)%nat).
  { rewrite Hinit. apply bool_decide_eq_true. }
  split; [exact Hflag|].
  unfold Page.ctaVisible, Scroll.ctaVisible. fold tr.
  rewrite andb_true_iff, Hflag, Hover.
  unfold Scroll.over_last, Scroll.hasScrollableContent, Scroll.hasScrolled.
  split.
  - intros [Hshown Hdelay]. split; [exact Hdelay|].
    destruct (Scroll.calls tr) as [|c older]; [discriminate|].
    apply andb_true_iff in Hshown as [Hh Ht].
    exists c, older. split; [reflexivity|]. split; now apply Z.ltb_lt.
  - intros [Hdelay (c & older & -> & Hh & Ht)]. split; [|exact Hdelay].
    apply andb_true_iff. split; now apply Z.ltb_lt.
Qed.

(** The document can have moved on since the last measurement: 100 ms
    after mount the user scrolls down, the debounced check shows the
    call-to-action, and the user scrolls back to the top; until the next
    debounced check the call-to-action is shown at offset zero. *)
Lemma cta_visible_at_top :
  let tall := Scroll.Metrics 0 2000 800 in
  let st := Page.run (Page.mount (Page.Browser ∅ ∅ tall))
                     (replicate 100 Page.Tick
                      ++ [Page.Window Scroll.OnScroll (Scroll.Metrics 200 2000 800)]
                      ++ replicate 50 Page.Tick
                      ++ [Page.Window Scroll.OnScroll tall]) in
  Page.reachable st
  /\ Page.ctaVisible st = true
  /\ Scroll.isInitialized (Page.tracker st) = true
  /\ Scroll.scrollTop (Scroll.document (Page.tracker st)) = 0
  /\ ~ (5 < Scroll.scrollTop (Scroll.document (Page.tracker st))).
Proof.
  cbv zeta. split; [eexists _, _; reflexivity|].
  split; [vm_compute; reflexivity|].
  split; [vm_compute; reflexivity|].
  assert (Htop : Scroll.scrollTop (Scroll.document (Page.tracker
            (Page.run (Page.mount (Page.Browser ∅ ∅ (Scroll.Metrics 0 2000 800)))
               (replicate 100 Page.Tick
                ++ [Page.Window Scroll.OnScroll (Scroll.Metrics 200 2000 800)]
                ++ replicate 50 Page.Tick
                ++ [Page.Window Scroll.OnScroll (Scroll.Metrics 0 2000 800)])))) = 0)
    by (vm_compute; reflexivity).
  split; [exact Htop|]. rewrite Htop. lia.
Qed.

(** ** Further facts about the handlers *)

(** X1. [fetchStars] never throws, however the request settles. *)
Theorem fetchStars_never_throws
    (request : Fetch.settled Fetch.response) (st : Fetch.state) :
  fst (Fetch.fetchStars request st) = Fetch.Normal tt.
Proof. apply fetchStars_completes. Qed.

(** X2. A successful answer whose payload carries a numeric
    [stargazers_count] stores that number as the star count. *)
Theorem fetchStars_stores_count
    (code : Z) (text : string) (remaining reset : option string)
    (fields : gmap string Fetch.json) (n : Z) (st : Fetch.state) :
  let payload := Fetch.JObject (<["stargazers_count" := Fetch.JNumber n]> fields) in
  let answer := Fetch.Response true code text remaining reset (Fetch.Fulfilled payload) in
  Fetch.lumeStars (snd (Fetch.fetchStars (Fetch.Fulfilled answer) st)) = Some n.
Proof.
  cbv zeta.
  unfold Fetch.fetchStars, Fetch.try_catch, mbind, Fetch.M_bind, Fetch.await,
    Fetch.console_log, Fetch.console_error.
  simpl. rewrite lookup_insert_eq. reflexivity.
Qed.

(** X3. [toggleTheme] writes no storage key other than ["theme"]. *)
Theorem toggleTheme_keeps_other_keys (st : Theme.state) :
  delete "theme" (Theme.localStorage (Theme.toggleTheme st))
  = delete "theme" (Theme.localStorage st).
Proof. unfold Theme.toggleTheme. simpl. apply delete_insert_eq. Qed.

(** X4. The close button inside the content box hides the modal: its own
    handler runs before the box stops the click. *)
Theorem close_button_hides_modal (st : Page.state) :
  Page.showVideo (Page.step st (Page.ModalClick Modal.CloseButton)) = false.
Proof. destruct st as [th sc fp op [] tr]; reflexivity. Qed.

(** ** Rounding, logging and the theme across the page *)

(** X5. For a count from 1000 to 2^53 the constant [roundedCount] is a
    whole number of hundreds and lies within 50 of the count, ties going
    up. *)
Theorem roundedCount_within_50 (count : Z) :
  1000 <= count <= 2 ^ 53 ->
  Format.roundedCount count mod 100 = 0
  /\ count - 50 < Format.roundedCount count <= count + 50.
Proof.
  intros Hc. rewrite roundedCount_exact by exact Hc.
  unfold Format.round_to_hundreds.
  split; [apply Z.mod_mul; lia|].
  pose proof (Z.mul_div_le (count + 50) 100 ltac:(lia)).
  pose proof (Z.mul_succ_div_gt (count + 50) 100 ltac:(lia)).
  lia.
Qed.

Lemma roundedCount_within_50_witness :
  1000 <= 1250 <= 2 ^ 53
  /\ Format.roundedCount 1250 = 1300
  /\ Format.roundedCount 1250 mod 100 = 0
  /\ 1250 - 50 < Format.roundedCount 1250 <= 1250 + 50.
Proof.
  assert (Hin : 1000 <= 1250 <= 2 ^ 53) by (vm_compute; split; discriminate).
  split; [exact Hin|]. split; [vm_compute; reflexivity|].
  exact (roundedCount_within_50 1250 Hin).
Defined.

(** X6. Whatever was on the console stays there; a failing request adds
    exactly one [console.error] entry, as the last entry, and a request
    that succeeds adds none. *)
Theorem fetchStars_logs_failures
    (request : Fetch.settled Fetch.response) (st : Fetch.state) :
  exists added,
    Fetch.console (snd (Fetch.fetchStars request st)) = Fetch.console st ++ added
    /\ head added = Some (Fetch.Log, "Fetching GitHub stars...")
    /\ length (Fetch.errors added) = (if Fetch.failing request then 1 else 0)%nat
    /\ (Fetch.failing request = true ->
        exists msg, last added = Some (Fetch.Error, msg)).
Proof.
  unfold Fetch.failing, Fetch.network_failure, Fetch.non_success_status,
    Fetch.malformed_payload.
  unfold Fetch.fetchStars, Fetch.try_catch, mbind, Fetch.M_bind, Fetch.await,
    Fetch.console_log, Fetch.console_error.
  destruct request as [r|e]; simpl.
  2:{ eexists. rewrite <- app_assoc. split; [reflexivity|]. simpl. eauto. }
  destruct (Fetch.ok r); simpl.
  2:{ eexists. rewrite <- app_assoc. split; [reflexivity|]. simpl. eauto. }
  destruct (Fetch.body r) as [data|e]; simpl.
  2:{ eexists. rewrite <- app_assoc. split; [reflexivity|]. simpl. eauto. }
  rewrite payload_guard.
  destruct (Fetch.has_star_count data) eqn:Hnum; simpl.
  - destruct data as [| | | | |fields]; try discriminate. simpl in *.
    destruct (fields !! "stargazers_count") as [[| | n | | |]|]; try discriminate.
    simpl. eexists. rewrite <- app_assoc. split; [reflexivity|].
    simpl. repeat split. discriminate.
  - eexists. rewrite <- !app_assoc. split; [reflexivity|]. simpl. eauto.
Qed.

Section ThemePageFacts.
Import Theme.

Lemma applyTheme_in_sync (st : state) :
  let st' := applyTheme st in
  isDarkMode st' = isDarkMode st
  /\ localStorage st' = localStorage st
  /\ ("dark" ∈ classList st' <-> isDarkMode st = true)
  /\ htmlBackground st' = Some (if isDarkMode st then "#171717" else "white")
  /\ bodyBackground st' = Some (if isDarkMode st then "#171717" else "white")
  /\ classList st' ∖ {["dark"]} = classList st ∖ {["dark"]}.
Proof.
  unfold applyTheme. destruct (isDarkMode st) eqn:E; simpl.
  - repeat split; auto.
    + intros _. apply elem_of_union. right. now apply elem_of_singleton.
    + apply set_eq. intros x.
      rewrite !elem_of_difference, elem_of_union, elem_of_singleton. tauto.
  - repeat split; auto; try discriminate.
    + rewrite elem_of_difference, elem_of_singleton. tauto.
    + apply set_eq. intros x. rewrite !elem_of_difference. tauto.
Qed.

Lemma toggleTheme_other_classes (st : state) :
  classList (toggleTheme st) ∖ {["dark"]} = classList st ∖ {["dark"]}.
Proof.
  unfold toggleTheme, classList_toggle. simpl.
  apply set_eq. intros x.
  destruct (decide ("dark" ∈ classList st));
    rewrite !elem_of_difference, ?elem_of_union, ?elem_of_difference,
      ?elem_of_singleton; tauto.
Qed.

Lemma settled_mount (storage : gmap string string) (classes : gset string) :
  settled classes (mount storage classes).
Proof.
  unfold mount.
  destruct (applyTheme_in_sync
              (State (initial_isDarkMode storage) storage classes None None))
    as (Hp & Hs & Hc & Hh & Hb & Ho).
  simpl in *. unfold settled. rewrite Hp, Hs. auto.
Qed.

Lemma settled_toggle (classes : gset string) (st : state) :
  settled classes st -> settled classes (applyTheme (toggleTheme st)).
Proof.
  intros (_ & _ & _ & _ & Hother).
  destruct (applyTheme_in_sync (toggleTheme st)) as (Hp & Hs & Hc & Hh & Hb & Ho).
  unfold settled. rewrite Hp, Hs, Ho, toggleTheme_other_classes.
  split; [|auto].
  unfold initial_isDarkMode. rewrite toggleTheme_storage.
  unfold theme_name. now destruct (isDarkMode (toggleTheme st)).
Qed.

Lemma settled_run (classes : gset string) (st : Page.state) (es : list Page.event) :
  settled classes (Page.theme st) -> settled classes (Page.theme (Page.run st es)).
Proof.
  revert st. induction es as [|e es IH]; intros st Hst; [exact Hst|].
  simpl. apply IH. destruct e; simpl; try exact Hst.
  - now apply settled_toggle.
  - now destruct (Page.showVideo st).
  - now destruct (Page.fetchPending st).
Qed.

End ThemePageFacts.

(** X7. After mount and after every event of the page, reading the stored
    value back with the initialiser gives the current preference (a reload
    keeps the theme), the root carries the [dark] class exactly in dark
    mode, both backgrounds are the colour of the mode, and the root's other
    classes are the ones it had before mount. *)
Theorem theme_settled_on_page (b : Page.browser) (es : list Page.event) :
  let th := Page.theme (Page.run (Page.mount b) es) in
  Theme.initial_isDarkMode (Theme.localStorage th) = Theme.isDarkMode th
  /\ ("dark" ∈ Theme.classList th <-> Theme.isDarkMode th = true)
  /\ Theme.htmlBackground th
     = Some (if Theme.isDarkMode th then "#171717" else "white")
  /\ Theme.bodyBackground th
     = Some (if Theme.isDarkMode th then "#171717" else "white")
  /\ Theme.classList th ∖ {["dark"]} = Page.rootClasses b ∖ {["dark"]}.
Proof.
  cbv zeta. apply (settled_run (Page.rootClasses b)). apply settled_mount.
Qed.

(** ** More on timers and scroll tracking *)

Section ScrollMore.
Import Scroll.

Implicit Types (st : state) (cb : callback) (src : source) (m : metrics).

Lemma filter_length_split {A} (P : A -> Prop) `{!forall x, Decision (P x)}
    (l : list A) :
  (length (filter P l) + length (filter (fun x => ¬ P x) l) = length l)%nat.
Proof.
  induction l as [|x l IH]; [reflexivity|].
  rewrite !filter_cons. destruct (decide (P x)) as [Hx|Hx].
  - rewrite decide_False by tauto. simpl. lia.
  - rewrite decide_True by tauto. simpl. lia.
Qed.

(** *** Calls and pending timers of one callback *)

(** A tick turns due timers into calls, one for one. *)
Lemma tick_conserves cb st :
  (length (calls_via cb (tick st)) + length (timers_of cb (tick st))
   = length (calls_via cb st) + length (timers_of cb st))%nat.
Proof.
  rewrite tick_calls_via, tick_timers_of.
  rewrite length_app, length_reverse, length_fmap.
  pose proof (filter_length_split
                (fun x => (Timers.due x <= S (clock st))%nat) (timers_of cb st)).
  lia.
Qed.

(** An event adds at most one timer, and only for its own wrapper. *)
Lemma window_event_adds_one src src' m st :
  (length (calls_via (Debounced src) (window_event src' m st))
   + length (timers_of (Debounced src) (window_event src' m st))
   <= length (calls_via (Debounced src) st) + length (timers_of (Debounced src) st)
      + (if decide (src' = src) then 1 else 0))%nat.
Proof.
  unfold calls_via. rewrite window_event_calls.
  destruct (decide (src' = src)) as [->|Hne].
  - rewrite window_event_timers_of, length_app. simpl.
    pose proof (length_filter
                  (fun t => timeoutId src st ≠ Some (Timers.timer_id t))
                  (timers_of (Debounced src) st)).
    lia.
  - rewrite window_event_timers_of_other by congruence.
    pose proof (length_filter
                  (fun t => timeoutId src' st ≠ Some (Timers.timer_id t))
                  (timers_of (Debounced src) st)).
    lia.
Qed.

Lemma run_bounded_by_events src st (es : list event) :
  (length (calls_via (Debounced src) (run st es))
   + length (timers_of (Debounced src) (run st es))
   <= length (calls_via (Debounced src) st) + length (timers_of (Debounced src) st)
      + events_of src es)%nat.
Proof.
  revert st. induction es as [|e es IH]; intros st; [simpl; lia|].
  change (run st (e :: es)) with (run (step st e) es).
  specialize (IH (step st e)). destruct e as [|src' m]; simpl in *.
  - pose proof (tick_conserves (Debounced src) st). lia.
  - pose proof (window_event_adds_one src src' m st). lia.
Qed.

(** *** The further invariants *)

Lemma fresh_ids_mount m : fresh_ids (mount m).
Proof. split; [intros [] i | intros i]; discriminate. Qed.

Lemma fresh_ids_step st (e : event) : fresh_ids st -> fresh_ids (step st e).
Proof.
  intros (Hlt & Hne). destruct e as [|src m]; simpl.
  - split.
    + intros src i. rewrite tick_timeoutId, tick_next_id. apply Hlt.
    + intros i. rewrite tick_eq. simpl. apply Hne.
  - split.
    + intros src' i. rewrite window_event_next_id.
      destruct (decide (src' = src)) as [->|Hd].
      * rewrite window_event_timeoutId. intros [= <-]. lia.
      * rewrite window_event_timeoutId_other by exact Hd.
        intros Hi. apply Hlt in Hi. lia.
    + intros i.
      change (scrollTimeoutId (window_event src m st))
        with (timeoutId OnScroll (window_event src m st)).
      change (resizeTimeoutId (window_event src m st))
        with (timeoutId OnResize (window_event src m st)).
      destruct src.
      * rewrite window_event_timeoutId,
          (window_event_timeoutId_other OnScroll OnResize) by discriminate.
        intros [= <-] Hr. apply (Hlt OnResize) in Hr. lia.
      * rewrite window_event_timeoutId,
          (window_event_timeoutId_other OnResize OnScroll) by discriminate.
        intros Hs [= <-]. apply (Hlt OnScroll) in Hs. lia.
Qed.

Lemma due_bounded_mount m : due_bounded (mount m).
Proof. intros src t Ht. apply elem_of_nil in Ht. contradiction. Qed.

Lemma due_bounded_step st (e : event) : due_bounded st -> due_bounded (step st e).
Proof.
  intros Hb. destruct e as [|src' m]; simpl; intros src t.
  - rewrite tick_timers_of, tick_clock. intros [Hlate Ht]%list_elem_of_filter.
    apply Hb in Ht. lia.
  - rewrite window_event_clock. destruct (decide (src = src')) as [<-|Hne].
    + rewrite window_event_timers_of.
      intros [[_ Ht]%list_elem_of_filter | ->%list_elem_of_singleton]%elem_of_app.
      * now apply Hb.
      * pose proof (delay_pos src). simpl. lia.
    + rewrite window_event_timers_of_other by congruence.
      intros [_ Ht]%list_elem_of_filter. now apply Hb.
Qed.

Lemma init_ran_mount m : init_ran (mount m).
Proof. reflexivity. Qed.

Lemma init_ran_step st (e : event) :
  init_pending st -> init_ran st -> init_ran (step st e).
Proof.
  unfold init_ran, init_delay. intros (Ht & _) Hran.
  destruct e as [|src m]; simpl.
  - rewrite tick_calls_via, tick_clock, fmap_app, Hran, Ht.
    unfold init_delay.
    destruct (decide (clock st < 100)%nat) as [Hearly|Hlate].
    + rewrite filter_one. simpl.
      destruct (decide (100 <= S (clock st))%nat).
      * rewrite decide_False by lia. simpl. f_equal. lia.
      * now rewrite decide_True by lia.
    + now rewrite decide_False by lia.
  - unfold calls_via. now rewrite window_event_calls, window_event_clock.
Qed.

(** Everything that holds of the tracker in a reachable state. *)
Lemma tracker_invariants (b : Page.browser) (es : list Page.event) :
  let tr := Page.tracker (Page.run (Page.mount b) es) in
  wf tr /\ fresh_ids tr /\ due_bounded tr /\ init_ran tr.
Proof.
  cbv zeta. rewrite tracker_run. simpl Page.tracker.
  generalize (omap Page.tracker_event es). clear es. intros es.
  assert (Hall : forall st, wf st /\ fresh_ids st /\ due_bounded st /\ init_ran st ->
                   wf (run st es) /\ fresh_ids (run st es)
                   /\ due_bounded (run st es) /\ init_ran (run st es)).
  { induction es as [|e es IH]; intros st Hst; [exact Hst|].
    apply (IH (step st e)). destruct Hst as (Hwf & Hf & Hd & Hr).
    split; [now apply wf_step|]. split; [now apply fresh_ids_step|].
    split; [now apply due_bounded_step|].
    apply init_ran_step; [apply Hwf | exact Hr]. }
  apply Hall. split; [apply wf_mount|]. split; [apply fresh_ids_mount|].
  split; [apply due_bounded_mount | apply init_ran_mount].
Qed.

(** *** Measurements while time passes *)

(** Every run of [checkScroll] made while only time passes measures the
    document as it stood. *)
Lemma wait_calls st (d : nat) :
  exists added,
    calls (run st (wait d)) = added ++ calls st
    /\ Forall (fun c => measured c = document st) added.
Proof.
  revert st. induction d as [|d IH]; intros st.
  - exists []. now split.
  - rewrite run_wait_S. destruct (IH (tick st)) as (added & Hc & Hm).
    rewrite tick_document in Hm. rewrite Hc, tick_eq. simpl.
    eexists (added ++ _). rewrite <- app_assoc. split; [reflexivity|].
    apply Forall_app. split; [exact Hm|].
    apply Forall_reverse, Forall_fmap, Forall_forall. now intros x _.
Qed.

(** When a pending timer of [cb] falls due during a wait, the flag
    afterwards is the verdict on the document as it stood. *)
Lemma wait_settles cb st (t : Timers.timer callback) (d : nat) :
  wf st ->
  timers_of cb st = [t] ->
  (clock st < Timers.due t <= clock st + d)%nat ->
  isScrolled (run st (wait d))
  = hasScrollableContent (document st) && hasScrolled (document st).
Proof.
  intros Hwf Ht Hdue.
  destruct (settle_wait cb st t d Ht Hdue) as (_ & Hfired).
  destruct (wait_calls st d) as (added & Hc & Hm).
  destruct (wf_run st (wait d) Hwf) as (_ & _ & Hover).
  rewrite Hover, Hc.
  destruct added as [|c added].
  - exfalso. unfold calls_via in Hfired. rewrite Hc in Hfired. simpl in Hfired.
    apply (f_equal length) in Hfired. simpl in Hfired. lia.
  - apply Forall_cons in Hm as [Hm _]. simpl. now rewrite Hm.
Qed.

Lemma wait_isInitialized st (d : nat) :
  timers_of InitTimeout st = [] ->
  isInitialized (run st (wait d)) = isInitialized st.
Proof.
  revert st. induction d as [|d IH]; intros st Ht; [reflexivity|].
  rewrite run_wait_S, IH.
  - rewrite tick_isInitialized, Ht. simpl. apply orb_false_r.
  - now rewrite tick_timers_of, Ht.
Qed.

(** *** The cleanup *)

Lemma cleanup_timers_of cb st :
  timers_of cb (cleanup st)
  = filter (fun t => Some initTimeout ≠ Some (Timers.timer_id t)) (timers_of cb st).
Proof.
  exact (clearTimeout_filter (fun t => Timers.callback t = cb)
                             (Some initTimeout) (loop st)).
Qed.

Lemma cleanup_frame cb st :
  calls_via cb (cleanup st) = calls_via cb st
  /\ clock (cleanup st) = clock st
  /\ isInitialized (cleanup st) = isInitialized st
  /\ document (cleanup st) = document st.
Proof. repeat split. Qed.

End ScrollMore.

(** X8. The wrapper of a source never runs [checkScroll] more often than
    the window fired that source: in every reachable state its runs so far
    and its pending timers together number at most the events of that
    source in the history.  Without events of a source its wrapper never
    runs. *)
Theorem debounce_never_amplifies
    (b : Page.browser) (es : list Page.event) (src : Scroll.source) :
  let tr := Page.tracker (Page.run (Page.mount b) es) in
  (length (Scroll.debounced_calls src tr) + length (Scroll.in_flight src tr)
   <= Scroll.events_of src (omap Page.tracker_event es))%nat.
Proof.
  cbv zeta. rewrite tracker_run.
  pose proof (run_bounded_by_events src (Page.tracker (Page.mount b))
                (omap Page.tracker_event es)) as Hle.
  exact Hle.
Qed.

(** X9. The two wrappers keep separate timers: in every reachable state a
    scroll event leaves the pending resize check as it is, and a resize
    event leaves the pending scroll check as it is. *)
Theorem wrappers_do_not_interfere
    (b : Page.browser) (es : list Page.event) (m : Scroll.metrics) :
  let tr := Page.tracker (Page.run (Page.mount b) es) in
  Scroll.in_flight Scroll.OnResize (Scroll.window_event Scroll.OnScroll m tr)
    = Scroll.in_flight Scroll.OnResize tr
  /\ Scroll.in_flight Scroll.OnScroll (Scroll.window_event Scroll.OnResize m tr)
     = Scroll.in_flight Scroll.OnScroll tr.
Proof.
  intros tr. destruct (tracker_invariants b es) as ((Hone & _) & (_ & Hne) & _).
  fold tr in Hone, Hne. unfold Scroll.in_flight. split.
  - rewrite window_event_timers_of_other by discriminate.
    destruct (Hone Scroll.OnResize) as [-> | (t & -> & Hid)]; [reflexivity|].
    rewrite filter_one, decide_True; [reflexivity|].
    simpl in *. intros Hs. apply Hne in Hs. contradiction.
  - rewrite window_event_timers_of_other by discriminate.
    destruct (Hone Scroll.OnScroll) as [-> | (t & -> & Hid)]; [reflexivity|].
    rewrite filter_one, decide_True; [reflexivity|].
    simpl in *. intros Hr. apply (Hne _ Hid). exact Hr.
Qed.

(** X10. From any reachable state, once a scroll or resize event has been
    followed by its wrapper's delay without further events, the flag
    [isScrolled] is the verdict of the two thresholds on the document as
    it now stands, and the call-to-action is shown exactly when the page is
    initialised and the document passes both thresholds. *)
Theorem visibility_settles
    (b : Page.browser) (es : list Page.event)
    (src : Scroll.source) (m : Scroll.metrics) (d : nat) :
  (Scroll.delay src <= d)%nat ->
  let st1 := Page.step (Page.run (Page.mount b) es) (Page.Window src m) in
  let st2 := Page.run st1 (Page.of_tracker <$> Scroll.wait d) in
  Scroll.document (Page.tracker st2) = m
  /\ Scroll.isScrolled (Page.tracker st2)
     = Scroll.hasScrollableContent m && Scroll.hasScrolled m
  /\ Page.ctaVisible st2
     = Scroll.isInitialized (Page.tracker st2)
       && (Scroll.hasScrollableContent (Scroll.document (Page.tracker st2))
           && Scroll.hasScrolled (Scroll.document (Page.tracker st2))).
Proof.
  intros Hd st1 st2. subst st2 st1.
  rewrite tracker_run_of_tracker. simpl Page.tracker.
  destruct (tracker_invariants b es) as (Hwf & _).
  set (tr := Page.tracker (Page.run (Page.mount b) es)) in *.
  set (tr1 := Scroll.window_event src m tr).
  assert (Hwf1 : Scroll.wf tr1) by (apply (wf_step tr (Scroll.Window src m)), Hwf).
  assert (Ht : Scroll.timers_of (Scroll.Debounced src) tr1
               = [Timers.Timer (Timers.next_id (Scroll.loop tr))
                               (Scroll.clock tr + Scroll.delay src)
                               (Scroll.Debounced src)]).
  { apply window_event_sets_timer. apply Hwf. }
  assert (Hdoc : Scroll.document (Scroll.run tr1 (Scroll.wait d)) = m).
  { destruct (wait_frame tr1 d) as (_ & -> & _). apply window_event_document. }
  assert (Hs : Scroll.isScrolled (Scroll.run tr1 (Scroll.wait d))
               = Scroll.hasScrollableContent m && Scroll.hasScrolled m).
  { rewrite (wait_settles _ tr1 _ d Hwf1 Ht).
    - unfold tr1. now rewrite window_event_document.
    - unfold tr1. rewrite window_event_clock. pose proof (delay_pos src).
      simpl. lia. }
  split; [exact Hdoc|]. split; [exact Hs|].
  unfold Page.ctaVisible, Scroll.ctaVisible.
  rewrite tracker_run_of_tracker. simpl Page.tracker. fold tr tr1.
  rewrite Hs, Hdoc. apply andb_comm.
Qed.

Lemma visibility_settles_witness :
  let b := Page.Browser ∅ ∅ (Scroll.Metrics 0 2000 800) in
  let history := replicate 120 Page.Tick
                 ++ [Page.Window Scroll.OnResize (Scroll.Metrics 0 2400 600)] in
  let st1 := Page.step (Page.run (Page.mount b) history)
                       (Page.Window Scroll.OnScroll (Scroll.Metrics 300 2400 600)) in
  let st2 := Page.run st1 (Page.of_tracker <$> Scroll.wait 50) in
  (Scroll.delay Scroll.OnScroll <= 50)%nat
  /\ Scroll.isScrolled (Page.tracker st2) = true
  /\ Page.ctaVisible st2 = true.
Proof.
  cbv zeta. split; [simpl; lia|].
  destruct (visibility_settles
              (Page.Browser ∅ ∅ (Scroll.Metrics 0 2000 800))
              (replicate 120 Page.Tick
               ++ [Page.Window Scroll.OnResize (Scroll.Metrics 0 2400 600)])
              Scroll.OnScroll (Scroll.Metrics 300 2400 600) 50)
    as (Hdoc & Hs & Hv); [simpl; lia|].
  split; [exact Hs|]. rewrite Hv. vm_compute. reflexivity.
Defined.

(** X11. In every reachable state the initialisation callback has run
    exactly once if 100 ms have passed since mount, at the 100th
    millisecond, and has not run before that. *)
Theorem init_runs_once
    (b : Page.browser) (es : list Page.event) :
  let tr := Page.tracker (Page.run (Page.mount b) es) in
  ((Scroll.clock tr < Scroll.init_delay)%nat ->
     Scroll.calls_via Scroll.InitTimeout tr = []
     /\ Scroll.isInitialized tr = false)
  /\ ((Scroll.init_delay <= Scroll.clock tr)%nat ->
      Scroll.isInitialized tr = true
      /\ exists measured,
           Scroll.calls_via Scroll.InitTimeout tr
           = [Scroll.Call Scroll.init_delay Scroll.InitTimeout measured]).
Proof.
  intros tr.
  destruct (tracker_invariants b es) as ((_ & (_ & Hflag & _) & _) & _ & _ & Hran).
  fold tr in Hflag, Hran. unfold Scroll.init_ran in Hran. split.
  - intros Hearly. rewrite decide_True in Hran by exact Hearly.
    split; [now apply fmap_nil_inv in Hran|].
    rewrite Hflag. apply bool_decide_eq_false_2. lia.
  - intros Hlate. rewrite decide_False in Hran by lia.
    split; [rewrite Hflag; now apply bool_decide_eq_true_2|].
    destruct (Scroll.calls_via Scroll.InitTimeout tr) as [|c [|c' cs]] eqn:Hc;
      try discriminate.
    assert (Hin : c ∈ Scroll.calls_via Scroll.InitTimeout tr)
      by (rewrite Hc; apply list_elem_of_here).
    apply list_elem_of_filter in Hin as [Hvia _].
    injection Hran as Hat. destruct c as [t cb measured]. simpl in *. subst.
    now exists measured.
Qed.

(** X12. If nothing happens for at least 100 ms after mount, the page is
    initialised and [isScrolled] is the verdict of the two thresholds on
    the layout the page was mounted with. *)
Theorem quiet_mount_measures_layout (b : Page.browser) (d : nat) :
  (Scroll.init_delay <= d)%nat ->
  let tr := Page.tracker (Page.run (Page.mount b) (Page.of_tracker <$> Scroll.wait d)) in
  Scroll.isInitialized tr = true
  /\ Scroll.isScrolled tr
     = Scroll.hasScrollableContent (Page.layout b) && Scroll.hasScrolled (Page.layout b).
Proof.
  intros Hd tr. split.
  - destruct (tracker_invariants b (Page.of_tracker <$> Scroll.wait d))
      as ((_ & (_ & Hflag & _) & _) & _).
    fold tr in Hflag. rewrite Hflag. apply bool_decide_eq_true_2.
    unfold tr. rewrite tracker_run_of_tracker.
    destruct (wait_frame (Page.tracker (Page.mount b)) d) as (-> & _).
    unfold Scroll.clock, Scroll.init_delay in *. simpl. lia.
  - unfold tr. rewrite tracker_run_of_tracker. simpl Page.tracker.
    rewrite (wait_settles Scroll.InitTimeout (Scroll.mount (Page.layout b))
               (Timers.Timer 1 Scroll.init_delay Scroll.InitTimeout) d).
    + reflexivity.
    + apply wf_mount.
    + reflexivity.
    + unfold Scroll.clock, Scroll.init_delay in *. simpl. lia.
Qed.

Lemma quiet_mount_measures_layout_witness :
  let b := Page.Browser ∅ ∅ (Scroll.Metrics 40 2000 800) in
  let tr := Page.tracker (Page.run (Page.mount b) (Page.of_tracker <$> Scroll.wait 100)) in
  (Scroll.init_delay <= 100)%nat
  /\ Scroll.isInitialized tr = true
  /\ Scroll.isScrolled tr = true.
Proof.
  cbv zeta. split; [reflexivity|].
  apply (quiet_mount_measures_layout
           (Page.Browser ∅ ∅ (Scroll.Metrics 40 2000 800)) 100).
  reflexivity.
Defined.

(** X13. A cleanup that runs before the 100 ms have passed cancels the
    initialisation for good: however long time passes afterwards, the
    initialisation callback does not run, the page is not marked
    initialised and the call-to-action is not shown. *)
Theorem cleanup_cancels_init
    (b : Page.browser) (es : list Page.event) (d : nat) :
  let tr := Page.tracker (Page.run (Page.mount b) es) in
  (Scroll.clock tr < Scroll.init_delay)%nat ->
  let tr' := Scroll.run (Scroll.cleanup tr) (Scroll.wait d) in
  Scroll.calls_via Scroll.InitTimeout tr' = []
  /\ Scroll.isInitialized tr' = false
  /\ Scroll.ctaVisible tr' = false.
Proof.
  intros tr Hearly tr'.
  destruct (tracker_invariants b es) as ((_ & (Ht & Hflag & _) & _) & _ & _ & Hran).
  fold tr in Ht, Hflag, Hran. unfold Scroll.init_ran in Hran.
  rewrite decide_True in Ht by exact Hearly.
  rewrite decide_True in Hran by exact Hearly.
  apply fmap_nil_inv in Hran.
  assert (Hnone : Scroll.timers_of Scroll.InitTimeout (Scroll.cleanup tr) = []).
  { rewrite cleanup_timers_of, Ht, filter_one. now rewrite decide_False by tauto. }
  destruct (idle_wait _ (Scroll.cleanup tr) d Hnone) as (_ & Hcalls).
  assert (Hinit : Scroll.isInitialized tr' = false).
  { unfold tr'. rewrite (wait_isInitialized _ d Hnone). simpl.
    rewrite Hflag. apply bool_decide_eq_false_2. lia. }
  split; [unfold tr'; now rewrite Hcalls|]. split; [exact Hinit|].
  unfold Scroll.ctaVisible. rewrite Hinit. apply andb_false_r.
Qed.

Lemma cleanup_cancels_init_witness :
  let b := Page.Browser ∅ ∅ (Scroll.Metrics 300 2000 800) in
  let tr := Page.tracker (Page.run (Page.mount b) (replicate 60 Page.Tick)) in
  let tr' := Scroll.run (Scroll.cleanup tr) (Scroll.wait 200) in
  (Scroll.clock tr < Scroll.init_delay)%nat
  /\ Scroll.calls_via Scroll.InitTimeout tr' = []
  /\ Scroll.isInitialized tr' = false
  /\ Scroll.ctaVisible tr' = false.
Proof.
  cbv zeta.
  assert (Hearly : (Scroll.clock (Page.tracker
             (Page.run (Page.mount (Page.Browser ∅ ∅ (Scroll.Metrics 300 2000 800)))
                       (replicate 60 Page.Tick))) < Scroll.init_delay)%nat).
  { vm_compute. lia. }
  split; [exact Hearly|].
  exact (cleanup_cancels_init
           (Page.Browser ∅ ∅ (Scroll.Metrics 300 2000 800))
           (replicate 60 Page.Tick) 200 Hearly).
Defined.

(** X14. The cleanup does not cancel the wrappers' timers: a debounced
    check that is pending when the cleanup runs stays pending, and within
    the wrapper's delay it runs [checkScroll] all the same. *)
Theorem cleanup_keeps_debounced_timers
    (b : Page.browser) (es : list Page.event) (src : Scroll.source) :
  let tr := Page.tracker (Page.run (Page.mount b) es) in
  let tr' := Scroll.run (Scroll.cleanup tr) (Scroll.wait (Scroll.delay src)) in
  Scroll.in_flight src (Scroll.cleanup tr) = Scroll.in_flight src tr
  /\ length (Scroll.debounced_calls src tr')
     = (length (Scroll.debounced_calls src tr) + length (Scroll.in_flight src tr))%nat
  /\ Scroll.in_flight src tr' = [].
Proof.
  intros tr tr'.
  destruct (tracker_invariants b es)
    as ((Hone & (_ & _ & _ & Hids) & _) & _ & Hdue & _).
  fold tr in Hone, Hids, Hdue.
  unfold Scroll.in_flight, Scroll.debounced_calls, tr'.
  rewrite cleanup_timers_of.
  destruct (Hone src) as [Hnone | (t & Ht & Hid)].
  - rewrite Hnone. split; [reflexivity|].
    destruct (idle_wait (Scroll.Debounced src) (Scroll.cleanup tr) (Scroll.delay src))
      as (Ht' & Hc').
    { now rewrite cleanup_timers_of, Hnone. }
    rewrite Hc', Ht'.
    change (Scroll.calls_via (Scroll.Debounced src) (Scroll.cleanup tr))
      with (Scroll.calls_via (Scroll.Debounced src) tr).
    simpl length. split; [lia | reflexivity].
  - assert (Hkeep : filter (fun t0 => Some Scroll.initTimeout ≠ Some (Timers.timer_id t0))
                           (Scroll.timers_of (Scroll.Debounced src) tr) = [t]).
    { rewrite Ht, filter_one, decide_True; [reflexivity|].
      apply Hids in Hid. intros [= E]. unfold Scroll.initTimeout in E.
      simpl in E. lia. }
    rewrite Hkeep, Ht. split; [reflexivity|].
    destruct (settle_wait (Scroll.Debounced src) (Scroll.cleanup tr) t (Scroll.delay src))
      as (Ht' & Hc').
    { now rewrite cleanup_timers_of. }
    { apply (Hdue src). rewrite Ht. apply list_elem_of_here. }
    rewrite Hc', Ht'.
    change (Scroll.calls_via (Scroll.Debounced src) (Scroll.cleanup tr))
      with (Scroll.calls_via (Scroll.Debounced src) tr).
    simpl length. split; [lia | reflexivity].
Qed.

(** ** The page as a whole *)

Section PageFacts.

Lemma theme_step_press (st : Page.state) :
  Page.theme (Page.step st Page.ThemeSwitchClick)
  = Theme.applyTheme (Theme.toggleTheme (Page.theme st)).
Proof. reflexivity. Qed.

Lemma theme_step_other (st : Page.state) (e : Page.event) :
  e <> Page.ThemeSwitchClick -> Page.theme (Page.step st e) = Page.theme st.
Proof.
  destruct e; simpl; try reflexivity; try contradiction.
  - intros _. now destruct (Page.showVideo st).
  - intros _. now destruct (Page.fetchPending st).
Qed.

Lemma press_flips (th : Theme.state) :
  let th' := Theme.applyTheme (Theme.toggleTheme th) in
  Theme.isDarkMode th' = negb (Theme.isDarkMode th)
  /\ Theme.localStorage th'
     = <["theme" := Theme.theme_name (negb (Theme.isDarkMode th))]> (Theme.localStorage th).
Proof.
  cbv zeta. destruct (applyTheme_in_sync (Theme.toggleTheme th)) as (-> & -> & _).
  split; reflexivity.
Qed.

Lemma run_theme (st : Page.state) (es : list Page.event) :
  let th := Page.theme (Page.run st es) in
  Theme.isDarkMode th
  = (if Nat.even (Page.theme_presses es) then Theme.isDarkMode (Page.theme st)
     else negb (Theme.isDarkMode (Page.theme st)))
  /\ delete "theme" (Theme.localStorage th)
     = delete "theme" (Theme.localStorage (Page.theme st))
  /\ (Page.theme_presses es = 0%nat ->
      Theme.localStorage th = Theme.localStorage (Page.theme st))
  /\ (Page.theme_presses es <> 0%nat ->
      Theme.localStorage th !! "theme" = Some (Theme.theme_name (Theme.isDarkMode th))).
Proof.
  cbv zeta. revert st. induction es as [|e es IH]; intros st.
  - simpl. repeat split; tauto.
  - change (Page.run st (e :: es)) with (Page.run (Page.step st e) es).
    destruct (IH (Page.step st e)) as (Hp & Hk & Hz & Hnz).
    assert (Hcases : e = Page.ThemeSwitchClick
                     \/ (e <> Page.ThemeSwitchClick
                         /\ Page.theme_presses (e :: es) = Page.theme_presses es)).
    { destruct e; (now left) || (right; split; [discriminate | reflexivity]). }
    destruct Hcases as [-> | [Hne Hcount]].
    + rewrite theme_step_press in Hp, Hk, Hz.
      destruct (press_flips (Page.theme st)) as (Hflip & Hstore).
      rewrite Hflip in Hp. rewrite Hstore in Hk, Hz.
      change (Page.theme_presses (Page.ThemeSwitchClick :: es))
        with (S (Page.theme_presses es)).
      rewrite Nat.even_succ, <- Nat.negb_even.
      split; [|split; [|split]].
      * rewrite Hp. destruct (Nat.even (Page.theme_presses es)); simpl;
          [reflexivity | apply negb_involutive].
      * rewrite Hk. apply delete_insert_eq.
      * discriminate.
      * intros _. destruct (decide (Page.theme_presses es = 0%nat)) as [Hnone|Hsome].
        -- rewrite (Hz Hnone), lookup_insert_eq, Hp, Hnone. reflexivity.
        -- now apply Hnz.
    + rewrite (theme_step_other st e Hne) in Hp, Hk, Hz.
      rewrite Hcount. auto.
Qed.

Lemma run_stays_closed (st : Page.state) (es : list Page.event) :
  Forall (fun e => e <> Page.MenuButtonClick) es ->
  Page.isMenuOpen st = false ->
  Page.isMenuOpen (Page.run st es) = false.
Proof.
  revert st. induction es as [|e es IH]; intros st Hes Hst; [exact Hst|].
  apply Forall_cons in Hes as [He Hes]. simpl. apply IH; [exact Hes|].
  destruct e; simpl; try exact Hst; try contradiction.
  - now rewrite Hst.
  - now destruct (Page.showVideo st).
  - now destruct (Page.fetchPending st).
Qed.

Lemma run_stays_hidden (st : Page.state) (es : list Page.event) :
  Forall (fun e => e <> Page.WatchDemoClick) es ->
  Page.showVideo st = false ->
  Page.showVideo (Page.run st es) = false.
Proof.
  revert st. induction es as [|e es IH]; intros st Hes Hst; [exact Hst|].
  apply Forall_cons in Hes as [He Hes]. simpl. apply IH; [exact Hes|].
  destruct e; simpl; try exact Hst; try contradiction.
  - now rewrite Hst.
  - now destruct (Page.fetchPending st).
Qed.

(** The first settlement after mounting completes the one run of
    [fetchStars]. *)
Lemma settles_after_mount (b : Page.browser) (request : Fetch.settled Fetch.response) :
  Page.stars (Page.step (Page.mount b) (Page.RequestSettles request))
  = snd (Fetch.fetchStars request (Fetch.State None [])).
Proof. reflexivity. Qed.

Lemma run_keeps_stars (st : Page.state) (es : list Page.event) :
  Forall (fun e => forall request, e <> Page.RequestSettles request) es ->
  Page.stars (Page.run st es) = Page.stars st.
Proof.
  revert st. induction es as [|e es IH]; intros st Hes; [reflexivity|].
  apply Forall_cons in Hes as [He Hes]. simpl. rewrite IH by exact Hes.
  destruct e; simpl; try reflexivity.
  - now destruct (Page.showVideo st).
  - now destruct (He request).
Qed.

End PageFacts.

(** X15. Over any history of the page, the preference is the initial one
    flipped once per press of the theme switch; the page writes no storage
    key other than ["theme"]; without a press the storage is exactly as the
    browser had it, and after at least one press the key holds the name of
    the current preference. *)
Theorem theme_after_presses (b : Page.browser) (es : list Page.event) :
  let th := Page.theme (Page.run (Page.mount b) es) in
  Theme.isDarkMode th
  = (if Nat.even (Page.theme_presses es)
     then Theme.initial_isDarkMode (Page.storage b)
     else negb (Theme.initial_isDarkMode (Page.storage b)))
  /\ delete "theme" (Theme.localStorage th) = delete "theme" (Page.storage b)
  /\ (Page.theme_presses es = 0%nat -> Theme.localStorage th = Page.storage b)
  /\ (Page.theme_presses es <> 0%nat ->
      Theme.localStorage th !! "theme" = Some (Theme.theme_name (Theme.isDarkMode th))).
Proof.
  cbv zeta. destruct (run_theme (Page.mount b) es) as (Hp & Hk & Hz & Hnz).
  assert (Hm : Theme.isDarkMode (Page.theme (Page.mount b))
               = Theme.initial_isDarkMode (Page.storage b)
               /\ Theme.localStorage (Page.theme (Page.mount b)) = Page.storage b).
  { simpl. unfold Theme.mount.
    destruct (applyTheme_in_sync
                (Theme.State (Theme.initial_isDarkMode (Page.storage b))
                             (Page.storage b) (Page.rootClasses b) None None))
      as (-> & -> & _). split; reflexivity. }
  destruct Hm as (Hm1 & Hm2). rewrite Hm1 in Hp. rewrite Hm2 in Hk, Hz.
  auto.
Qed.

(** X16. Nothing opens by itself.  Over a history without a press of the
    menu button the menu stays closed; without a press of "Watch Demo" the
    modal stays hidden; and before the request settles the star count is
    [null], shown as ["0"], and the console holds only the line that
    [fetchStars] logs before its first [await]. *)
Theorem nothing_opens_by_itself (b : Page.browser) (es : list Page.event) :
  let st := Page.run (Page.mount b) es in
  (Forall (fun e => e <> Page.MenuButtonClick) es -> Page.isMenuOpen st = false)
  /\ (Forall (fun e => e <> Page.WatchDemoClick) es -> Page.showVideo st = false)
  /\ (Forall (fun e => forall request, e <> Page.RequestSettles request) es ->
      Page.stars st = Fetch.State None [(Fetch.Log, "Fetching GitHub stars...")]
      /\ Format.formatStarCount (Fetch.lumeStars (Page.stars st)) = "0").
Proof.
  cbv zeta. split; [|split].
  - intros Hes. now apply run_stays_closed.
  - intros Hes. now apply run_stays_hidden.
  - intros Hes. rewrite (run_keeps_stars _ _ Hes). split; reflexivity.
Qed.
